(** * imap-to-lexoffice: the message-processing pipeline of [main.go]

    A shallow embedding of [main.go].  Go strings are byte strings
    ([string]); a Go [error] is its message text; a function returning
    [(T, error)] returns a [result T].  The IMAP connection, the HTTP client,
    the MIME reader and the process environment are external collaborators:
    they are the fields of a record the program is parameterised by, and
    every call to one of them is recorded, with its answer, in a trace. *)

From Stdlib Require Import List String Ascii Bool ZArith NArith Lia Permutation.
From Stdlib Require Import DecimalString.
Import ListNotations.
Local Open Scope list_scope.
Local Open Scope string_scope.

(** ** Go values *)

Inductive result (A : Type) : Type :=
| Ok (a : A)
| Err (msg : string).
Arguments Ok {A} a.
Arguments Err {A} msg.

Definition is_ok {A} (r : result A) : bool :=
  match r with Ok _ => true | Err _ => false end.

(** [%d] of an unsigned and of a signed integer. *)
Definition utoa (n : N) : string := NilZero.string_of_uint (N.to_uint n).
Definition itoa (z : Z) : string := NilZero.string_of_int (Z.to_int z).

(** [io.ReadAll] on a reader: the bytes read and the error that stopped the
    read, if any. *)
Record Reader := { ReadAll_data : string; ReadAll_err : option string }.

Definition ReadAll (r : Reader) : string * option string :=
  (ReadAll_data r, ReadAll_err r).

(** ** Package [regexp], for the patterns of [IgnorePatterns]

    The three patterns are concatenations of literals, [^], [$] and [.].
    With the flags of [regexp.MustCompile], [^] is the beginning of the text,
    [$] its end and [.] any character but a line feed.  The literals are
    ASCII and a line feed is one byte that is never part of a longer UTF-8
    sequence, so matching byte by byte agrees with matching rune by rune. *)

Inductive re_op :=
| OpBeginText
| OpEndText
| OpAnyCharNotNL
| OpLiteral (c : ascii).

Definition Regexp := list re_op.

Definition newline : ascii := "010"%char.

(** The pattern syntax, restricted to what the repository writes: a
    metacharacter outside [^ $ .] is not accepted. *)
Definition is_other_meta (c : ascii) : bool :=
  existsb (Ascii.eqb c)
    ["\"; "*"; "+"; "?"; "("; ")"; "["; "]"; "{"; "}"; "|"]%char.

Fixpoint Compile (expr : string) : option Regexp :=
  match expr with
  | EmptyString => Some []
  | String c rest =>
      match Compile rest with
      | None => None
      | Some ops =>
          if Ascii.eqb c "^" then Some (OpBeginText :: ops)
          else if Ascii.eqb c "$" then Some (OpEndText :: ops)
          else if Ascii.eqb c "." then Some (OpAnyCharNotNL :: ops)
          else if is_other_meta c then None
          else Some (OpLiteral c :: ops)
      end
  end.

(** Does the pattern match at this position?  [at_start] says whether the
    position is the beginning of the text. *)
Fixpoint match_here (ops : Regexp) (at_start : bool) (s : string) : bool :=
  match ops with
  | [] => true
  | OpBeginText :: ops' => at_start && match_here ops' at_start s
  | OpEndText :: ops' =>
      match s with
      | EmptyString => match_here ops' at_start s
      | String _ _ => false
      end
  | OpAnyCharNotNL :: ops' =>
      match s with
      | EmptyString => false
      | String c s' => negb (Ascii.eqb c newline) && match_here ops' false s'
      end
  | OpLiteral a :: ops' =>
      match s with
      | EmptyString => false
      | String c s' => Ascii.eqb c a && match_here ops' false s'
      end
  end.

(** An unanchored search: some position of the text matches. *)
Fixpoint match_from (ops : Regexp) (at_start : bool) (s : string) : bool :=
  match_here ops at_start s ||
  match s with
  | EmptyString => false
  | String _ s' => match_from ops false s'
  end.

Definition MatchString (re : Regexp) (s : string) : bool :=
  match_from re true s.

(** ** The attachment filter *)

Definition IgnorePatterns : list Regexp :=
  [ [OpBeginText; OpLiteral "A"; OpLiteral "G"; OpLiteral "B"; OpLiteral "_"];
    [OpAnyCharNotNL; OpLiteral "i"; OpLiteral "c"; OpLiteral "s"; OpEndText];
    [OpBeginText; OpLiteral "R"; OpLiteral "e"; OpLiteral "c"; OpLiteral "e";
     OpLiteral "i"; OpLiteral "p"; OpLiteral "t"; OpLiteral "-"] ]%char.

(** The literals of a text, as a pattern. *)
Fixpoint literals (s : string) : Regexp :=
  match s with
  | EmptyString => []
  | String c s' => OpLiteral c :: literals s'
  end.

(** The three built-in patterns, one by one. *)
Definition pat_AGB : Regexp := OpBeginText :: literals "AGB_".
Definition pat_ics : Regexp := OpAnyCharNotNL :: (literals "ics" ++ [OpEndText])%list.
Definition pat_Receipt : Regexp := OpBeginText :: literals "Receipt-".

(** The texts [IgnorePatterns] is compiled from. *)
Definition IgnorePatterns_source : list string :=
  ["^AGB_"; ".ics$"; "^Receipt-"].

(** The loop of [shouldIgnoreFile] over a pattern list. *)
Fixpoint matchesAny (patterns : list Regexp) (filename : string) : bool :=
  match patterns with
  | [] => false
  | pattern :: rest =>
      if MatchString pattern filename then true else matchesAny rest filename
  end.

Definition shouldIgnoreFile (filename : string) : bool :=
  matchesAny IgnorePatterns filename.

(** ** Data of the collaborators *)

(** [imap.UID] and [SelectData.NumMessages] are [uint32]; the program does
    no arithmetic on them. *)
Definition UID := N.

Inductive NumSet :=
| SeqSetRange (start stop : N)     (* [imap.SeqSet] after [AddRange] *)
| UIDSetNum (uid : UID).           (* [imap.UIDSet] after [AddNum] *)

Record FetchOptions := { opt_UID : bool; opt_BodySection : bool }.

Record FetchMessageBuffer := { msg_UID : UID; msg_BodySection : list string }.

Record SelectData := { NumMessages : N }.

Record ListData := { Mailbox : string }.

Inductive StoreFlagsOp := StoreFlagsSet | StoreFlagsAdd | StoreFlagsDel.

Definition FlagDeleted : string := "\Deleted".

Record StoreFlags :=
  { Op : StoreFlagsOp; Flags : list string; Silent : bool }.

(** A part of a parsed message: the type switch of [processMessage] tells
    [*mail.AttachmentHeader], which carries what [Filename()] returns, from
    every other header. *)
Inductive PartHeader :=
| InlineHeader
| AttachmentHeader (filename : string).

Record Part := { part_Header : PartHeader; part_Body : Reader }.

(** What successive calls of [mr.NextPart()] return; the end of the list is
    [io.EOF]. *)
Inductive NextPartResult :=
| GotPart (part : Part)
| PartErr (err : string).

Definition MailReader := list NextPartResult.

Inductive FormPart :=
| FormFile (fieldname filename data : string)
| FormField (fieldname value : string).

Record Request :=
  { Method : string; URL : string;
    req_Header : list (string * string);
    req_Body : list FormPart;
    Timeout : Z }.

Record Response := { StatusCode : Z; resp_Body : Reader }.

(** [time.Duration] counts nanoseconds. *)
Definition Second : Z := 1000000000%Z.
Definition Minute : Z := (60 * Second)%Z.

Record Config :=
  { IMAPServer : string; IMAPPort : string; IMAPUser : string;
    IMAPPassword : string; LexofficeKey : string; PollInterval : Z }.

(** ** The trace *)

Inductive event :=
| EvLog (line : string)
| EvFatal (line : string)
| EvDialTLS (addr : string) (r : result unit)
| EvClose
| EvLogin (user pass : string) (r : result unit)
| EvSelect (mailbox : string) (r : result SelectData)
| EvFetch (set : NumSet) (opts : FetchOptions)
          (r : result (list FetchMessageBuffer))
| EvList (ref pattern : string) (r : result (list ListData))
| EvCreate (mailbox : string) (r : result unit)
| EvCopy (set : NumSet) (dest : string) (r : result unit)
| EvStore (set : NumSet) (flags : StoreFlags) (r : result unit)
| EvExpunge (r : result unit)
| EvLogout (r : result unit)
| EvHTTP (req : Request) (r : result Response).

Set Implicit Arguments.

(** The collaborators, over the state [W] of the world outside. *)
Record Collaborators (W : Type) : Type :=
  { os_Getenv : string -> string;
    time_ParseDuration : string -> result Z;
    duration_String : Z -> string;
    strings_EqualFold : string -> string -> bool;
    mail_CreateReader : string -> result MailReader;
    multipart_boundary : string;
    imap_DialTLS : string -> W -> result unit * W;
    imap_Close : W -> W;
    imap_Login : string -> string -> W -> result unit * W;
    imap_Select : string -> W -> result SelectData * W;
    imap_Fetch : NumSet -> FetchOptions -> W ->
                 result (list FetchMessageBuffer) * W;
    imap_List : string -> string -> W -> result (list ListData) * W;
    imap_Create : string -> W -> result unit * W;
    imap_Copy : NumSet -> string -> W -> result unit * W;
    imap_Store : NumSet -> StoreFlags -> W -> result unit * W;
    imap_Expunge : W -> result unit * W;
    imap_Logout : W -> result unit * W;
    http_Do : Request -> W -> result Response * W }.
Unset Implicit Arguments.

(** Log lines the statements name. *)
Definition moved_line (uid : UID) : string :=
  "Moved message " ++ utoa uid ++ " to 'done' folder".

Definition skipped_line (uid : UID) : string :=
  "Message " ++ utoa uid ++ " has no attachments, skipping".

Definition failure_line (uid : UID) (err : string) : string :=
  "Failed to process message " ++ utoa uid ++ ": " ++ err.

Definition fatal_line : string :=
  "Missing required environment variables: IMAP_SERVER, IMAP_USER, IMAP_PASSWORD, LEXOFFICE_API_KEY".

(** ** The program *)

Section Program.
Context {W : Type} (X : Collaborators W).

(** A computation returns a value, the new world and the events it
    produced, oldest first. *)
Definition M (A : Type) : Type := W -> A * W * list event.

Definition ret {A} (a : A) : M A := fun w => (a, w, []).

Definition bind {A B} (m : M A) (f : A -> M B) : M B :=
  fun w =>
    let '(a, w1, t1) := m w in
    let '(b, w2, t2) := f a w1 in
    (b, w2, (t1 ++ t2)%list).

Definition call {R} (h : W -> R * W) (ev : R -> event) : M R :=
  fun w => let '(r, w') := h w in (r, w', [ev r]).

Definition logPrintf (line : string) : M unit := fun w => (tt, w, [EvLog line]).

Definition retval {A} (x : A * W * list event) : A := fst (fst x).
Definition world_after {A} (x : A * W * list event) : W := snd (fst x).
Definition events {A} (x : A * W * list event) : list event := snd x.

Notation "x <- m ;; k" := (bind m (fun x => k))
  (at level 100, m at next level, right associativity).
Notation "m ;;; k" := (bind m (fun _ => k))
  (at level 100, right associativity).

Definition getEnvOrDefault (key defaultValue : string) : string :=
  let val := os_Getenv X key in
  if negb (val =? "") then val else defaultValue.

Definition loadConfig : Config :=
  let interval := (5 * Minute)%Z in
  let interval :=
    let val := os_Getenv X "POLL_INTERVAL_MINUTES" in
    if negb (val =? "") then
      match time_ParseDuration X (val ++ "m") with
      | Ok mins => mins
      | Err _ => interval
      end
    else interval in
  {| IMAPServer := os_Getenv X "IMAP_SERVER";
     IMAPPort := getEnvOrDefault "IMAP_PORT" "993";
     IMAPUser := os_Getenv X "IMAP_USER";
     IMAPPassword := os_Getenv X "IMAP_PASSWORD";
     LexofficeKey := os_Getenv X "LEXOFFICE_API_KEY";
     PollInterval := interval |}.

(** Writing the multipart body into a [bytes.Buffer] and building the
    request from a constant method and URL return no error; the deferred
    [resp.Body.Close()] is not observed. *)
Definition uploadRequest (filename data : string) (config : Config)
  : Request :=
  let body := [FormFile "file" filename data; FormField "type" "voucher"] in
  {| Method := "POST"; URL := "https://api.lexoffice.io/v1/files";
     req_Header :=
       [("Authorization", "Bearer " ++ LexofficeKey config);
        ("Content-Type",
         "multipart/form-data; boundary=" ++ multipart_boundary X);
        ("Accept", "application/json")];
     req_Body := body;
     Timeout := (30 * Second)%Z |}.

Definition uploadToLexoffice (filename data : string) (config : Config)
  : M (result unit) :=
  let req := uploadRequest filename data config in
  r <- call (http_Do X req) (EvHTTP req) ;;
  match r with
  | Err err => ret (Err err)
  | Ok resp =>
      if (StatusCode resp <? 200)%Z || (StatusCode resp >=? 300)%Z then
        let '(respBody, _) := ReadAll (resp_Body resp) in
        ret (Err ("upload failed with status " ++ itoa (StatusCode resp)
                  ++ ": " ++ respBody))
      else ret (Ok tt)
  end.

Definition ensureFolderExists (folderName : string) : M (result unit) :=
  r <- call (imap_List X "" folderName) (EvList "" folderName) ;;
  match r with
  | Err err => ret (Err ("list failed: " ++ err))
  | Ok mailboxes =>
      if existsb (fun mbox => strings_EqualFold X (Mailbox mbox) folderName)
                 mailboxes
      then ret (Ok tt)
      else
        logPrintf ("Creating folder '" ++ folderName ++ "'") ;;;
        r <- call (imap_Create X folderName) (EvCreate folderName) ;;
        match r with
        | Err err => ret (Err ("create folder failed: " ++ err))
        | Ok _ => ret (Ok tt)
        end
  end.

Definition moveToFolder (uid : UID) (folderName : string)
  : M (result unit) :=
  r <- ensureFolderExists folderName ;;
  match r with
  | Err err => ret (Err err)
  | Ok _ =>
      let seqSet := UIDSetNum uid in
      r <- call (imap_Copy X seqSet folderName) (EvCopy seqSet folderName) ;;
      match r with
      | Err err => ret (Err ("copy failed: " ++ err))
      | Ok _ =>
          let storeFlags :=
            {| Op := StoreFlagsAdd; Flags := [FlagDeleted];
               Silent := true |} in
          r <- call (imap_Store X seqSet storeFlags)
                    (EvStore seqSet storeFlags) ;;
          match r with
          | Err err => ret (Err ("store flags failed: " ++ err))
          | Ok _ =>
              r <- call (imap_Expunge X) EvExpunge ;;
              match r with
              | Err err => ret (Err ("expunge failed: " ++ err))
              | Ok _ => ret (Ok tt)
              end
          end
      end
  end.

(** The part loop of [processMessage]; it returns [hasAttachments] when
    [NextPart] reaches [io.EOF]. *)
Fixpoint processParts (config : Config) (mr : MailReader)
         (hasAttachments : bool) : M (result bool) :=
  match mr with
  | [] => ret (Ok hasAttachments)
  | PartErr err :: _ => ret (Err ("failed to read part: " ++ err))
  | GotPart part :: mr' =>
      match part_Header part with
      | AttachmentHeader filename =>
          logPrintf ("  Found attachment: " ++ filename) ;;;
          if shouldIgnoreFile filename then
            logPrintf ("  Skipping " ++ filename
                       ++ " (matches ignore pattern)") ;;;
            processParts config mr' true
          else
            let '(data, err) := ReadAll (part_Body part) in
            match err with
            | Some err =>
                logPrintf ("  Failed to read attachment: " ++ err) ;;;
                processParts config mr' true
            | None =>
                r <- uploadToLexoffice filename data config ;;
                match r with
                | Err err =>
                    logPrintf ("  Failed to upload to Lexoffice: " ++ err)
                | Ok _ =>
                    logPrintf ("  Successfully uploaded " ++ filename
                               ++ " to Lexoffice")
                end ;;;
                processParts config mr' true
            end
      | InlineHeader => processParts config mr' hasAttachments
      end
  end.

Definition bodyFetchOptions : FetchOptions :=
  {| opt_UID := true; opt_BodySection := true |}.

Definition processMessage (uid : UID) (config : Config)
  : M (result unit) :=
  logPrintf ("Processing message UID " ++ utoa uid) ;;;
  let fetchOptions := bodyFetchOptions in
  let seqSet := UIDSetNum uid in
  r <- call (imap_Fetch X seqSet fetchOptions)
            (EvFetch seqSet fetchOptions) ;;
  match r with
  | Err err => ret (Err ("fetch failed: " ++ err))
  | Ok [] => ret (Err "message not found")
  | Ok (msg :: _) =>
      match msg_BodySection msg with
      | [] => ret (Err "no body found")
      | literal :: _ =>
          match mail_CreateReader X literal with
          | Err err => ret (Err ("failed to create mail reader: " ++ err))
          | Ok mr =>
              r <- processParts config mr false ;;
              match r with
              | Err err => ret (Err err)
              | Ok hasAttachments =>
                  if hasAttachments then
                    r <- moveToFolder uid "done" ;;
                    match r with
                    | Err err =>
                        ret (Err ("failed to move message: " ++ err))
                    | Ok _ =>
                        logPrintf ("Moved message " ++ utoa uid
                                   ++ " to 'done' folder") ;;;
                        ret (Ok tt)
                    end
                  else
                    logPrintf ("Message " ++ utoa uid
                               ++ " has no attachments, skipping") ;;;
                    ret (Ok tt)
              end
          end
      end
  end.

(** The message loop of [processMailbox]. *)
Fixpoint processMessages (config : Config) (msgs : list FetchMessageBuffer)
  : M unit :=
  match msgs with
  | [] => ret tt
  | msg :: rest =>
      r <- processMessage (msg_UID msg) config ;;
      match r with
      | Err err =>
          logPrintf ("Failed to process message " ++ utoa (msg_UID msg)
                     ++ ": " ++ err)
      | Ok _ => ret tt
      end ;;;
      processMessages config rest
  end.

Definition listFetchOptions : FetchOptions :=
  {| opt_UID := true; opt_BodySection := false |}.

(** [defer c.Close()] runs when the rest of the function returns. *)
Definition deferClose {A} (body : M A) : M A :=
  a <- body ;;
  (fun w => (tt, imap_Close X w, [EvClose])) ;;;
  ret a.

Definition processMailbox (config : Config) : M unit :=
  logPrintf "Connecting to IMAP server..." ;;;
  r <- call (imap_DialTLS X (IMAPServer config ++ ":" ++ IMAPPort config))
            (EvDialTLS (IMAPServer config ++ ":" ++ IMAPPort config)) ;;
  match r with
  | Err err => logPrintf ("Failed to connect: " ++ err)
  | Ok _ =>
      deferClose (
        r <- call (imap_Login X (IMAPUser config) (IMAPPassword config))
                  (EvLogin (IMAPUser config) (IMAPPassword config)) ;;
        match r with
        | Err err => logPrintf ("Login failed: " ++ err)
        | Ok _ =>
            logPrintf "Logged in successfully" ;;;
            r <- call (imap_Select X "INBOX") (EvSelect "INBOX") ;;
            match r with
            | Err err => logPrintf ("Failed to select INBOX: " ++ err)
            | Ok mailbox =>
                if (NumMessages mailbox =? 0)%N then
                  logPrintf "No messages in INBOX"
                else
                  logPrintf ("Found " ++ utoa (NumMessages mailbox)
                             ++ " messages in INBOX") ;;;
                  let seqSet := SeqSetRange 1 (NumMessages mailbox) in
                  let fetchOptions := listFetchOptions in
                  r <- call (imap_Fetch X seqSet fetchOptions)
                            (EvFetch seqSet fetchOptions) ;;
                  match r with
                  | Err err =>
                      logPrintf ("Failed to fetch messages: " ++ err)
                  | Ok msgs =>
                      logPrintf ("Processing "
                                 ++ utoa (N.of_nat (List.length msgs))
                                 ++ " messages from INBOX") ;;;
                      processMessages config msgs ;;;
                      r <- call (imap_Logout X) EvLogout ;;
                      match r with
                      | Err err => logPrintf ("Logout failed: " ++ err)
                      | Ok _ => ret tt
                      end
                  end
            end
        end)
  end.

(** How [main] ends: the process exits with a status, or it is still
    waiting for the next tick (the ticker's channel is never closed). *)
Inductive ending :=
| Exit (code : Z)
| WaitingForTick.

Fixpoint onTicks (config : Config) (ticks : nat) : M unit :=
  match ticks with
  | O => ret tt
  | S n => processMailbox config ;;; onTicks config n
  end.

Definition missingConfig (config : Config) : bool :=
  (IMAPServer config =? "") || (IMAPUser config =? "")
  || (IMAPPassword config =? "") || (LexofficeKey config =? "").

(** The message [uid] as the processor meets it in the world [w]: the
    fetch answers with a message whose first body section the MIME reader
    opens as [mr]. *)
Definition message_at (w : W) (uid : UID) (mr : MailReader) : Prop :=
  exists msg msgs literal rest w',
    imap_Fetch X (UIDSetNum uid) bodyFetchOptions w = (Ok (msg :: msgs), w') /\
    msg_BodySection msg = literal :: rest /\
    mail_CreateReader X literal = Ok mr.

(** The world and the trace once the body of [uid] has been fetched. *)
Definition after_fetch (w : W) (uid : UID) : W :=
  snd (imap_Fetch X (UIDSetNum uid) bodyFetchOptions w).

Definition fetch_events (w : W) (uid : UID) : list event :=
  [EvLog ("Processing message UID " ++ utoa uid);
   EvFetch (UIDSetNum uid) bodyFetchOptions
           (fst (imap_Fetch X (UIDSetNum uid) bodyFetchOptions w))].

(** What one turn of the part loop does with an attachment part, up to the
    next call of [NextPart]. *)
Definition processAttachment (filename : string) (part : Part)
           (config : Config) : M unit :=
  logPrintf ("  Found attachment: " ++ filename) ;;;
  if shouldIgnoreFile filename then
    logPrintf ("  Skipping " ++ filename ++ " (matches ignore pattern)")
  else
    let '(data, err) := ReadAll (part_Body part) in
    match err with
    | Some err => logPrintf ("  Failed to read attachment: " ++ err)
    | None =>
        r <- uploadToLexoffice filename data config ;;
        match r with
        | Err err => logPrintf ("  Failed to upload to Lexoffice: " ++ err)
        | Ok _ =>
            logPrintf ("  Successfully uploaded " ++ filename
                       ++ " to Lexoffice")
        end
    end.

(** The identifiers a listing fetch answered with. *)
Fixpoint listed_uids (t : list event) : list UID :=
  match t with
  | [] => []
  | EvFetch (SeqSetRange _ _) _ (Ok msgs) :: t' =>
      (map msg_UID msgs ++ listed_uids t')%list
  | _ :: t' => listed_uids t'
  end.

End Program.

(** ** What the statements observe in a trace *)

(** The commands of the mailbox-state mutator ([moveToFolder] and
    [ensureFolderExists]), without their answers. *)
Inductive command :=
| CmdList (ref pattern : string)
| CmdCreate (mailbox : string)
| CmdCopy (set : NumSet) (dest : string)
| CmdStore (set : NumSet) (flags : StoreFlags)
| CmdExpunge.

Definition mutator_command (e : event) : option command :=
  match e with
  | EvList ref pattern _ => Some (CmdList ref pattern)
  | EvCreate mailbox _ => Some (CmdCreate mailbox)
  | EvCopy set dest _ => Some (CmdCopy set dest)
  | EvStore set flags _ => Some (CmdStore set flags)
  | EvExpunge _ => Some CmdExpunge
  | _ => None
  end.

Fixpoint mutator_commands (t : list event) : list command :=
  match t with
  | [] => []
  | e :: t' =>
      match mutator_command e with
      | Some c => c :: mutator_commands t'
      | None => mutator_commands t'
      end
  end.

Definition addDeleted : StoreFlags :=
  {| Op := StoreFlagsAdd; Flags := [FlagDeleted]; Silent := true |}.

(** The identifiers whose body was fetched, in order. *)
Fixpoint fetched_bodies (t : list event) : list UID :=
  match t with
  | [] => []
  | EvFetch (UIDSetNum uid) {| opt_BodySection := true |} _ :: t' =>
      uid :: fetched_bodies t'
  | _ :: t' => fetched_bodies t'
  end.

(** The file names carried by the upload requests, in order. *)
Definition request_filenames (req : Request) : list string :=
  flat_map (fun p => match p with
                     | FormFile _ filename _ => [filename]
                     | FormField _ _ => []
                     end) (req_Body req).

Fixpoint uploaded_filenames (t : list event) : list string :=
  match t with
  | [] => []
  | EvHTTP req _ :: t' => (request_filenames req ++ uploaded_filenames t')%list
  | _ :: t' => uploaded_filenames t'
  end.

Definition is_2xx (status : Z) : bool :=
  ((200 <=? status) && (status <? 300))%Z.

(** An upload request that was not answered with a 2xx status. *)
Definition upload_failed (e : event) : bool :=
  match e with
  | EvHTTP _ (Err _) => true
  | EvHTTP _ (Ok resp) => negb (is_2xx (StatusCode resp))
  | _ => false
  end.

Definition is_attachment (p : Part) : bool :=
  match part_Header p with
  | AttachmentHeader _ => true
  | InlineHeader => false
  end.

(** An attachment that is not skipped and whose payload cannot be read. *)
Definition read_fails (p : Part) : bool :=
  match part_Header p with
  | AttachmentHeader filename =>
      negb (shouldIgnoreFile filename) &&
      match ReadAll_err (part_Body p) with Some _ => true | None => false end
  | InlineHeader => false
  end.

(** ** A mailbox server and an upload API to run the program against *)

Module Demo.

Record Message := { m_uid : UID; m_body : string; m_deleted : bool }.

Record world :=
  { inbox : list Message;
    folders : list (string * list Message);
    uploads : list string }.

(** What the run is scripted with: the environment, how message bodies
    parse, how the API answers a file name, whether COPY is refused. *)
Record Script :=
  { env : list (string * string);
    mime : list (string * MailReader);
    api_status : string -> result Z;
    copy_refused : bool }.

Fixpoint assoc {A} (k : string) (l : list (string * A)) : option A :=
  match l with
  | [] => None
  | (k', a) :: l' => if k =? k' then Some a else assoc k l'
  end.

Definition lower (c : ascii) : ascii :=
  let n := nat_of_ascii c in
  if (65 <=? n)%nat && (n <=? 90)%nat then ascii_of_nat (n + 32) else c.

Fixpoint lower_string (s : string) : string :=
  match s with
  | EmptyString => EmptyString
  | String c s' => String (lower c) (lower_string s')
  end.

Definition buffer (opts : FetchOptions) (m : Message) : FetchMessageBuffer :=
  {| msg_UID := m_uid m;
     msg_BodySection := if opt_BodySection opts then [m_body m] else [] |}.

Definition fetch (set : NumSet) (opts : FetchOptions) (w : world)
  : result (list FetchMessageBuffer) * world :=
  match set with
  | SeqSetRange start stop =>
      (Ok (map (buffer opts)
               (firstn (N.to_nat (stop - start + 1))
                       (skipn (N.to_nat (start - 1)) (inbox w)))), w)
  | UIDSetNum uid =>
      (Ok (map (buffer opts)
               (filter (fun m => (m_uid m =? uid)%N) (inbox w))), w)
  end.

Definition selected (set : NumSet) (m : Message) : bool :=
  match set with
  | UIDSetNum uid => (m_uid m =? uid)%N
  | SeqSetRange _ _ => false
  end.

Fixpoint add_to (dest : string) (ms : list Message)
         (fs : list (string * list Message)) : list (string * list Message) :=
  match fs with
  | [] => []
  | (name, old) :: fs' =>
      if name =? dest then (name, (old ++ ms)%list) :: fs'
      else (name, old) :: add_to dest ms fs'
  end.

Definition copy (refused : bool) (set : NumSet) (dest : string) (w : world)
  : result unit * world :=
  if refused then (Err "NO [CANNOT] copy refused", w)
  else match assoc dest (folders w) with
       | None => (Err "NO [TRYCREATE] no such mailbox", w)
       | Some _ =>
           (Ok tt,
            {| inbox := inbox w;
               folders := add_to dest (filter (selected set) (inbox w))
                                 (folders w);
               uploads := uploads w |})
       end.

Definition store (set : NumSet) (flags : StoreFlags) (w : world)
  : result unit * world :=
  (Ok tt,
   {| inbox := map (fun m => if selected set m
                             then {| m_uid := m_uid m; m_body := m_body m;
                                     m_deleted := true |}
                             else m) (inbox w);
      folders := folders w; uploads := uploads w |}).

Definition expunge (w : world) : result unit * world :=
  (Ok tt,
   {| inbox := filter (fun m => negb (m_deleted m)) (inbox w);
      folders := folders w; uploads := uploads w |}).

Definition list_folders (ref pattern : string) (w : world)
  : result (list ListData) * world :=
  (Ok (map (fun f => {| Mailbox := fst f |})
           (filter (fun f => fst f =? pattern) (folders w))), w).

Definition create (name : string) (w : world) : result unit * world :=
  match assoc name (folders w) with
  | Some _ => (Err "NO [ALREADYEXISTS] mailbox exists", w)
  | None =>
      (Ok tt, {| inbox := inbox w;
                 folders := (folders w ++ [(name, [])])%list;
                 uploads := uploads w |})
  end.

Definition post (status : string -> result Z) (req : Request) (w : world)
  : result Response * world :=
  match request_filenames req with
  | [] => (Err "no file", w)
  | filename :: _ =>
      match status filename with
      | Err err => (Err err, w)
      | Ok code =>
          if is_2xx code then
            (Ok {| StatusCode := code;
                   resp_Body := {| ReadAll_data := "{}";
                                   ReadAll_err := None |} |},
             {| inbox := inbox w; folders := folders w;
                uploads := (uploads w ++ [filename])%list |})
          else
            (Ok {| StatusCode := code;
                   resp_Body := {| ReadAll_data := "rejected";
                                   ReadAll_err := None |} |}, w)
      end
  end.

Definition collaborators (sc : Script) : Collaborators world :=
  {| os_Getenv := fun key => match assoc key (env sc) with
                             | Some v => v
                             | None => ""
                             end;
     time_ParseDuration := fun s =>
       if s =? "10m" then Ok (10 * Minute)%Z
       else Err ("time: invalid duration " ++ s);
     duration_String := fun d => itoa (d / Minute) ++ "m0s";
     strings_EqualFold := fun a b => lower_string a =? lower_string b;
     mail_CreateReader := fun body =>
       match assoc body (mime sc) with
       | Some mr => Ok mr
       | None => Err "malformed MIME header"
       end;
     multipart_boundary := "b0undary";
     imap_DialTLS := fun _ w => (Ok tt, w);
     imap_Close := fun w => w;
     imap_Login := fun _ _ w => (Ok tt, w);
     imap_Select := fun _ w =>
       (Ok {| NumMessages := N.of_nat (List.length (inbox w)) |}, w);
     imap_Fetch := fetch;
     imap_List := list_folders;
     imap_Create := create;
     imap_Copy := copy (copy_refused sc);
     imap_Store := store;
     imap_Expunge := expunge;
     imap_Logout := fun w => (Ok tt, w);
     http_Do := post (api_status sc) |}.

Definition file (name data : string) : NextPartResult :=
  GotPart {| part_Header := AttachmentHeader name;
             part_Body := {| ReadAll_data := data; ReadAll_err := None |} |}.

Definition text (data : string) : NextPartResult :=
  GotPart {| part_Header := InlineHeader;
             part_Body := {| ReadAll_data := data; ReadAll_err := None |} |}.

Definition full_env : list (string * string) :=
  [("IMAP_SERVER", "mail.example.org"); ("IMAP_USER", "books");
   ("IMAP_PASSWORD", "secret"); ("LEXOFFICE_API_KEY", "key-1")].

(** Every upload is accepted but the one of [receipt.pdf]. *)
Definition script : Script :=
  {| env := full_env;
     mime := [("M1", [text "see attachment"; file "invoice.pdf" "%PDF-1"]);
              ("M2", [text "no attachment here"]);
              ("M3", [file "AGB_terms.pdf" "%PDF-2";
                      file "receipt.pdf" "%PDF-3"]);
              ("M4", [file "scan.pdf" "%PDF-4"; PartErr "unexpected EOF"])];
     api_status := fun filename =>
       if filename =? "receipt.pdf" then Ok 500%Z else Ok 201%Z;
     copy_refused := false |}.

Definition script_copy_refused : Script :=
  {| env := full_env; mime := mime script;
     api_status := api_status script; copy_refused := true |}.

Definition script_no_port_no_key : Script :=
  {| env := [("IMAP_SERVER", "mail.example.org"); ("IMAP_USER", "books");
             ("IMAP_PASSWORD", "secret"); ("IMAP_PORT", "143")];
     mime := mime script; api_status := api_status script;
     copy_refused := false |}.

Definition message (uid : UID) (body : string) : Message :=
  {| m_uid := uid; m_body := body; m_deleted := false |}.

Definition mailbox (ms : list Message) : world :=
  {| inbox := ms; folders := []; uploads := [] |}.

Definition config : Config := loadConfig (collaborators script).

End Demo.


(** ** Further observations on a trace *)

(** The upload requests of a trace, in order. *)
Fixpoint http_requests (t : list event) : list Request :=
  match t with
  | [] => []
  | EvHTTP req _ :: t' => req :: http_requests t'
  | _ :: t' => http_requests t'
  end.

(** The addresses dialled, in order. *)
Fixpoint dialled (t : list event) : list string :=
  match t with
  | [] => []
  | EvDialTLS addr _ :: t' => addr :: dialled t'
  | _ :: t' => dialled t'
  end.

(** The parts [NextPart] hands out before its first error. *)
Fixpoint readable_parts (mr : MailReader) : list Part :=
  match mr with
  | [] => []
  | GotPart part :: mr' => part :: readable_parts mr'
  | PartErr _ :: _ => []
  end.

(** The error a collaborator answered with, if it did. *)
Definition failed_answer (e : event) : option string :=
  match e with
  | EvDialTLS _ (Err err) | EvLogin _ _ (Err err) | EvSelect _ (Err err)
  | EvFetch _ _ (Err err) | EvList _ _ (Err err) | EvCreate _ (Err err)
  | EvCopy _ _ (Err err) | EvStore _ _ (Err err) | EvExpunge (Err err)
  | EvLogout (Err err) | EvHTTP _ (Err err) => Some err
  | _ => None
  end.

(** What [moveToFolder] and [ensureFolderExists] put before the error of
    each of their commands. *)
Definition step_label (e : event) : string :=
  match e with
  | EvList _ _ _ => "list failed: "
  | EvCreate _ _ => "create folder failed: "
  | EvCopy _ _ _ => "copy failed: "
  | EvStore _ _ _ => "store flags failed: "
  | EvExpunge _ => "expunge failed: "
  | _ => EmptyString
  end.

(** The events the processing of messages can produce: log lines, body
    fetches, uploads and the commands of the mutator. *)
Definition message_event (e : event) : Prop :=
  match e with
  | EvLog _ | EvHTTP _ _ | EvList _ _ _ | EvCreate _ _ | EvCopy _ _ _
  | EvStore _ _ _ | EvExpunge _ => True
  | EvFetch (UIDSetNum _) _ _ => True
  | _ => False
  end.

(** A command that changes the mailbox names the folder [done] and, for a
    copy or a store, one of the identifiers [uids]; a store adds [\Deleted]
    and nothing else. *)
Definition touches_only (uids : list UID) (e : event) : Prop :=
  match e with
  | EvList ref pattern _ => ref = EmptyString /\ pattern = "done"
  | EvCreate mailbox _ => mailbox = "done"
  | EvCopy set dest _ =>
      dest = "done" /\ exists uid, In uid uids /\ set = UIDSetNum uid
  | EvStore set flags _ =>
      flags = addDeleted /\ exists uid, In uid uids /\ set = UIDSetNum uid
  | EvFetch (UIDSetNum uid) _ _ => In uid uids
  | _ => True
  end.

(** [time.NewTicker] panics when its duration is not positive. *)
Definition NewTicker (d : Z) : result unit :=
  if (d <=? 0)%Z then Err "non-positive interval for NewTicker" else Ok tt.

Inductive outcome :=
| Ended (e : ending)
| Panicked (msg : string).

Section Ticker.
Context {W : Type} (X : Collaborators W).

Local Notation "m ;;; k" := (bind m (fun _ => k))
  (at level 100, right associativity).

(** The request, if any, that the part loop sends for a part. *)
Definition upload_of (config : Config) (part : Part) : list Request :=
  match part_Header part with
  | InlineHeader => []
  | AttachmentHeader filename =>
      if shouldIgnoreFile filename then []
      else match ReadAll_err (part_Body part) with
           | Some _ => []
           | None =>
               [uploadRequest X filename (ReadAll_data (part_Body part))
                              config]
           end
  end.

(** The function [main], run with the [-once] flag [runOnce] and observed
    until the ticker has delivered [ticks] ticks.  [log.Fatal] writes its
    line and exits with status 1.  In the polling mode the ticker is made,
    from [config.PollInterval], after the first log line and before the
    first cycle. *)
Definition mainWithTicker (runOnce : bool) (ticks : nat) : M outcome :=
  let config := loadConfig X in
  if missingConfig config then
    (fun w => (tt, w, [EvFatal fatal_line])) ;;;
    ret (Ended (Exit 1))
  else if runOnce then
    logPrintf "Running once and exiting..." ;;;
    processMailbox X config ;;;
    ret (Ended (Exit 0))
  else
    logPrintf ("Starting mail processor. Polling every "
               ++ duration_String X (PollInterval config)) ;;;
    match NewTicker (PollInterval config) with
    | Err msg => ret (Panicked msg)
    | Ok _ =>
        processMailbox X config ;;;
        onTicks X config ticks ;;;
        ret (Ended WaitingForTick)
    end.

End Ticker.

(** The collaborators [X] in an environment that sets the poll interval to
    [val], which [time.ParseDuration] reads, with the [m] appended, as
    [parsed]. *)
Definition with_poll_interval {W : Type} (X : Collaborators W)
           (val : string) (parsed : result Z) : Collaborators W :=
  {| os_Getenv := fun key =>
       if key =? "POLL_INTERVAL_MINUTES" then val else os_Getenv X key;
     time_ParseDuration := fun s =>
       if s =? val ++ "m" then parsed else time_ParseDuration X s;
     duration_String := duration_String X;
     strings_EqualFold := strings_EqualFold X;
     mail_CreateReader := mail_CreateReader X;
     multipart_boundary := multipart_boundary X;
     imap_DialTLS := imap_DialTLS X;
     imap_Close := imap_Close X;
     imap_Login := imap_Login X;
     imap_Select := imap_Select X;
     imap_Fetch := imap_Fetch X;
     imap_List := imap_List X;
     imap_Create := imap_Create X;
     imap_Copy := imap_Copy X;
     imap_Store := imap_Store X;
     imap_Expunge := imap_Expunge X;
     imap_Logout := imap_Logout X;
     http_Do := http_Do X |}.

(** * Properties *)

Local Open Scope list_scope.

(** ** Facts about the filter *)

Lemma IgnorePatterns_compiled :
  map Compile IgnorePatterns_source = map Some IgnorePatterns.
Proof. reflexivity. Qed.

Lemma matchesAny_iff patterns filename :
  matchesAny patterns filename = true <->
  exists pattern, In pattern patterns /\ MatchString pattern filename = true.
Proof.
  induction patterns as [|p ps IH]; simpl.
  - split; [discriminate | intros (? & [] & _)].
  - destruct (MatchString p filename) eqn:Hp.
    + split; [intros _; exists p; auto | reflexivity].
    + rewrite IH. split.
      * intros (q & Hq & Hm). exists q; auto.
      * intros (q & [<- | Hq] & Hm); [congruence | exists q; auto].
Qed.

Lemma matchesAny_false_iff patterns filename :
  matchesAny patterns filename = false <->
  forall pattern, In pattern patterns -> MatchString pattern filename = false.
Proof.
  split.
  - intros H p Hp. destruct (MatchString p filename) eqn:Hm; [|reflexivity].
    assert (matchesAny patterns filename = true) by
      (apply matchesAny_iff; exists p; auto).
    congruence.
  - intros H. destruct (matchesAny patterns filename) eqn:Hm; [|reflexivity].
    apply matchesAny_iff in Hm as (p & Hp & Hm). rewrite (H p Hp) in Hm.
    discriminate.
Qed.

Lemma matchesAny_Permutation ps ps' filename :
  Permutation ps ps' -> matchesAny ps filename = matchesAny ps' filename.
Proof.
  intros HP.
  destruct (matchesAny ps filename) eqn:H1; symmetry.
  - apply matchesAny_iff in H1 as (p & Hp & Hm).
    apply matchesAny_iff. exists p. split; [|exact Hm].
    eapply Permutation_in; eauto.
  - apply matchesAny_false_iff. intros p Hp.
    apply (proj1 (matchesAny_false_iff ps filename) H1).
    eapply Permutation_in; [apply Permutation_sym|]; eauto.
Qed.

(** A pattern that begins with [^] matches nowhere but at the beginning. *)
Lemma match_from_begin_false ops s :
  match_from (OpBeginText :: ops) false s = false.
Proof. induction s as [|c s IH]; simpl; auto. Qed.

Lemma MatchString_begin ops s :
  MatchString (OpBeginText :: ops) s = match_here ops true s.
Proof.
  unfold MatchString. destruct s as [|c s]; simpl.
  - apply orb_false_r.
  - rewrite match_from_begin_false. apply orb_false_r.
Qed.

Lemma match_here_literals_prefix lit b s :
  match_here (literals lit) b s = true <-> exists rest, s = (lit ++ rest)%string.
Proof.
  revert b s. induction lit as [|a lit IH]; intros b s; simpl.
  - split; [intros _; exists s; reflexivity | reflexivity].
  - destruct s as [|c s].
    + split; [discriminate | intros (rest & H); discriminate].
    + rewrite andb_true_iff, IH, Ascii.eqb_eq. split.
      * intros (-> & rest & ->). exists rest. reflexivity.
      * intros (rest & H). injection H as -> ->. split; eauto.
Qed.

Lemma IgnorePatterns_eq : IgnorePatterns = [pat_AGB; pat_ics; pat_Receipt].
Proof. reflexivity. Qed.

Lemma match_here_ics b s :
  match_here pat_ics b s = true <->
  exists c, c <> newline /\ s = String c "ics".
Proof.
  unfold pat_ics; simpl. split.
  - destruct s as [|c [|c1 [|c2 [|c3 [|c4 s]]]]]; simpl;
      rewrite ?andb_false_r; try discriminate.
    rewrite !andb_true_iff, negb_true_iff, !Ascii.eqb_eq, Ascii.eqb_neq.
    intros (Hc & -> & -> & -> & _). exists c. auto.
  - intros (c & Hc & ->). simpl.
    apply Ascii.eqb_neq in Hc. rewrite Hc. reflexivity.
Qed.

Lemma match_from_ics b s :
  match_from pat_ics b s = true <->
  exists pre c, c <> newline /\ s = (pre ++ String c "ics")%string.
Proof.
  revert b. induction s as [|a s IH]; intros b.
  - split.
    + simpl. discriminate.
    + intros (pre & c & _ & H). destruct pre; discriminate.
  - change (match_from pat_ics b (String a s))
      with (match_here pat_ics b (String a s) || match_from pat_ics false s).
    rewrite orb_true_iff, match_here_ics, IH. split.
    + intros [(c & Hc & H) | (pre & c & Hc & ->)].
      * exists EmptyString, c. auto.
      * exists (String a pre), c. auto.
    + intros (pre & c & Hc & H). destruct pre as [|a' pre]; simpl in H.
      * left. exists c. auto.
      * right. injection H as -> ->. exists pre, c. auto.
Qed.

(** What the built-in patterns skip. *)
Lemma shouldIgnoreFile_spec filename :
  shouldIgnoreFile filename = true <->
  (exists rest, filename = ("AGB_" ++ rest)%string) \/
  (exists pre c, c <> newline /\ filename = (pre ++ String c "ics")%string) \/
  (exists rest, filename = ("Receipt-" ++ rest)%string).
Proof.
  unfold shouldIgnoreFile. rewrite IgnorePatterns_eq. cbn [matchesAny].
  unfold pat_AGB at 1, pat_Receipt at 1. rewrite !MatchString_begin.
  unfold MatchString.
  rewrite <- (match_here_literals_prefix "AGB_" true filename).
  rewrite <- (match_here_literals_prefix "Receipt-" true filename).
  rewrite <- (match_from_ics true filename).
  destruct (match_here (literals "AGB_") true filename);
    destruct (match_from pat_ics true filename);
    destruct (match_here (literals "Receipt-") true filename);
    intuition discriminate.
Qed.

(** C4: [shouldIgnoreFile] is a total function of the file name alone; it
    answers true exactly when one of the configured patterns matches, so its
    answer is the same for every reordering of the pattern list; the empty
    file name is skipped only if a pattern matches it, and no built-in
    pattern does; [AGB_2024.pdf] and [event.ics] are skipped, [invoice.pdf]
    is not. *)
Theorem C4_filter_matches_any_pattern :
  (forall filename,
      shouldIgnoreFile filename = true <->
      exists pattern,
        In pattern IgnorePatterns /\ MatchString pattern filename = true) /\
  (forall patterns patterns' filename,
      Permutation patterns patterns' ->
      matchesAny patterns filename = matchesAny patterns' filename) /\
  (forall patterns,
      matchesAny patterns EmptyString = true <->
      exists pattern,
        In pattern patterns /\ MatchString pattern EmptyString = true) /\
  shouldIgnoreFile EmptyString = false /\
  shouldIgnoreFile "AGB_2024.pdf" = true /\
  shouldIgnoreFile "invoice.pdf" = false /\
  shouldIgnoreFile "event.ics" = true.
Proof.
  split; [|split; [|split]].
  - intros filename. apply matchesAny_iff.
  - intros ps ps' filename. apply matchesAny_Permutation.
  - intros ps. apply matchesAny_iff.
  - repeat split; reflexivity.
Qed.

(** The order of the built-in list does not matter either. *)
Lemma C4_filter_witness :
  matchesAny (rev IgnorePatterns) "event.ics" = shouldIgnoreFile "event.ics".
Proof.
  symmetry.
  apply (proj1 (proj2 C4_filter_matches_any_pattern)
               IgnorePatterns (rev IgnorePatterns) "event.ics").
  apply Permutation_rev.
Defined.

(** C10, as far as it holds: the built-in ignore set is the three patterns
    [^AGB_], [.ics$] and [^Receipt-]; a file name is skipped exactly when it
    begins with [AGB_], or begins with [Receipt-], or ends with a character
    other than a line feed followed by [ics].  So every name beginning with
    [Receipt-] is skipped, every name that ends with [ics] after a
    character that is not a line feed is skipped ([statistics] is), and
    the bare name [ics] is not. *)
Theorem C10_builtin_patterns :
  map Compile IgnorePatterns_source = map Some IgnorePatterns /\
  List.length IgnorePatterns = 3%nat /\
  (forall filename,
      shouldIgnoreFile filename = true <->
      (exists rest, filename = ("AGB_" ++ rest)%string) \/
      (exists pre c,
          c <> newline /\ filename = (pre ++ String c "ics")%string) \/
      (exists rest, filename = ("Receipt-" ++ rest)%string)) /\
  (forall rest, shouldIgnoreFile ("Receipt-" ++ rest)%string = true) /\
  (forall pre c,
      c <> newline ->
      shouldIgnoreFile (pre ++ String c "ics")%string = true) /\
  shouldIgnoreFile "Receipt-123.pdf" = true /\
  shouldIgnoreFile "statistics" = true /\
  MatchString pat_ics "ics" = false /\
  shouldIgnoreFile "ics" = false.
Proof.
  split; [reflexivity|]. split; [reflexivity|].
  split; [exact shouldIgnoreFile_spec|].
  split; [|split].
  - intros rest. apply shouldIgnoreFile_spec. right; right. eauto.
  - intros pre c Hc. apply shouldIgnoreFile_spec. right; left. eauto.
  - repeat split; reflexivity.
Qed.

Lemma C10_builtin_patterns_witness :
  shouldIgnoreFile ("my-" ++ String "t" "ics")%string = true.
Proof.
  apply (proj1 (proj2 (proj2 (proj2 (proj2 C10_builtin_patterns)))) "my-" "t"%char).
  discriminate.
Defined.

(** C10 as it was stated fails: a name of four characters that ends with
    [ics] after a line feed is not skipped. *)
Lemma C10_counterexample :
  let filename := String newline "ics" in
  (4 <= String.length filename)%nat /\
  substring (String.length filename - 3) 3 filename = "ics"%string /\
  shouldIgnoreFile filename = false.
Proof. repeat split. simpl. lia. Qed.

(** ** Running computations *)

Section Properties.
Context {W : Type} (X : Collaborators W).

Lemma events_bind {A B} (m : M A) (f : A -> M B) (w : W) :
  events (bind m f w) =
  events (m w) ++ events (f (retval (m w)) (world_after (m w))).
Proof.
  unfold bind, events, retval, world_after.
  destruct (m w) as [[a w1] t1]; simpl.
  destruct (f a w1) as [[b w2] t2]; reflexivity.
Qed.

Lemma retval_bind {A B} (m : M A) (f : A -> M B) (w : W) :
  retval (bind m f w) = retval (f (retval (m w)) (world_after (m w))).
Proof.
  unfold bind, events, retval, world_after.
  destruct (m w) as [[a w1] t1]; simpl.
  destruct (f a w1) as [[b w2] t2]; reflexivity.
Qed.

Lemma world_after_bind {A B} (m : M A) (f : A -> M B) (w : W) :
  world_after (bind m f w) =
  world_after (f (retval (m w)) (world_after (m w))).
Proof.
  unfold bind, events, retval, world_after.
  destruct (m w) as [[a w1] t1]; simpl.
  destruct (f a w1) as [[b w2] t2]; reflexivity.
Qed.

Lemma events_mk {A} (a : A) (w : W) (t : list event) : events (a, w, t) = t.
Proof. reflexivity. Qed.

Lemma retval_mk {A} (a : A) (w : W) (t : list event) : retval (a, w, t) = a.
Proof. reflexivity. Qed.

Lemma world_after_mk {A} (a : A) (w : W) (t : list event) :
  world_after (a, w, t) = w.
Proof. reflexivity. Qed.

Lemma run_eta {A} (x : A * W * list event) :
  x = (retval x, world_after x, events x).
Proof. destruct x as [[a w] t]; reflexivity. Qed.

Lemma mutator_commands_app t1 t2 :
  mutator_commands (t1 ++ t2) = mutator_commands t1 ++ mutator_commands t2.
Proof.
  induction t1 as [|e t1 IH]; simpl; [reflexivity|].
  destruct (mutator_command e); simpl; congruence.
Qed.

Lemma fetched_bodies_app t1 t2 :
  fetched_bodies (t1 ++ t2) = fetched_bodies t1 ++ fetched_bodies t2.
Proof.
  induction t1 as [|e t1 IH]; simpl; [reflexivity|].
  destruct e; try exact IH.
  destruct set; try exact IH.
  destruct opts as [u [|]]; simpl; congruence.
Qed.

Lemma uploaded_filenames_app t1 t2 :
  uploaded_filenames (t1 ++ t2) = uploaded_filenames t1 ++ uploaded_filenames t2.
Proof.
  induction t1 as [|e t1 IH]; simpl; [reflexivity|].
  destruct e; try exact IH.
  rewrite IH. apply app_assoc.
Qed.


(** One step of a run: name the answer of the next collaborator call. *)
Ltac next_call :=
  match goal with
  | |- context [match ?c with pair _ _ => _ end] =>
      lazymatch type of c with
      | (result _ * _)%type => idtac
      end;
      let r := fresh "r" in
      let w := fresh "w" in
      let H := fresh "Hcall" in
      destruct c as [r w] eqn:H; destruct r; simpl
  end.

Ltac unfold_move :=
  unfold moveToFolder, ensureFolderExists, bind, call, ret, logPrintf,
    retval, events, world_after; simpl.

(** ** The mailbox-state mutator *)

Lemma moveToFolder_order w uid folderName :
  let set := UIDSetNum uid in
  let cmds := mutator_commands (events (moveToFolder X uid folderName w)) in
  exists n,
    (1 <= n)%nat /\
    (cmds = firstn n [CmdList "" folderName; CmdCreate folderName;
                      CmdCopy set folderName; CmdStore set addDeleted;
                      CmdExpunge] \/
     cmds = firstn n [CmdList "" folderName;
                      CmdCopy set folderName; CmdStore set addDeleted;
                      CmdExpunge]).
Proof.
  unfold_move.
  next_call; [|exists 1%nat; split; [lia | left; reflexivity]].
  destruct (existsb _ a); simpl.
  - next_call; [|exists 2%nat; split; [lia | right; reflexivity]].
    next_call; [|exists 3%nat; split; [lia | right; reflexivity]].
    next_call; exists 4%nat; (split; [lia | right; reflexivity]).
  - next_call; [|exists 2%nat; split; [lia | left; reflexivity]].
    next_call; [|exists 3%nat; split; [lia | left; reflexivity]].
    next_call; [|exists 4%nat; split; [lia | left; reflexivity]].
    next_call; exists 5%nat; (split; [lia | left; reflexivity]).
Qed.



Lemma moveToFolder_success w uid folderName :
  let set := UIDSetNum uid in
  let run := moveToFolder X uid folderName w in
  retval run = Ok tt ->
  exists ensure,
    mutator_commands (events run) =
    ensure ++ [CmdCopy set folderName; CmdStore set addDeleted; CmdExpunge] /\
    (ensure = [CmdList "" folderName] \/
     ensure = [CmdList "" folderName; CmdCreate folderName]).
Proof.
  unfold_move. next_call; [|discriminate].
  destruct (existsb _ a); simpl.
  - repeat (next_call; [|discriminate]).
    intros _. exists [CmdList "" folderName]. auto.
  - repeat (next_call; [|discriminate]).
    intros _. exists [CmdList "" folderName; CmdCreate folderName]. auto.
Qed.

(** The first command of a move is the query for the folder. *)
Lemma moveToFolder_starts_with_list w uid folderName :
  exists rest,
    mutator_commands (events (moveToFolder X uid folderName w)) =
    CmdList "" folderName :: rest.
Proof.
  destruct (moveToFolder_order w uid folderName) as (n & Hn & [H | H]);
    destruct n as [|n]; try lia; rewrite H; simpl; eauto.
Qed.



(** ** The upload client *)

Lemma uploadToLexoffice_run w filename data config :
  let req := uploadRequest X filename data config in
  let answer := fst (http_Do X req w) in
  uploadToLexoffice X filename data config w =
  (match answer with
   | Err err => Err err
   | Ok resp =>
       if is_2xx (StatusCode resp) then Ok tt
       else Err ("upload failed with status " ++ itoa (StatusCode resp)
                 ++ ": " ++ ReadAll_data (resp_Body resp))%string
   end,
   snd (http_Do X req w),
   [EvHTTP req answer]).
Proof.
  unfold uploadToLexoffice, bind, call, ret. simpl.
  destruct (http_Do X (uploadRequest X filename data config) w)
    as [[resp | err] w1]; simpl; [|reflexivity].
  unfold is_2xx. rewrite Z.geb_leb.
  destruct (Z.ltb_spec (StatusCode resp) 200),
           (Z.leb_spec 300 (StatusCode resp)),
           (Z.leb_spec 200 (StatusCode resp)),
           (Z.ltb_spec (StatusCode resp) 300);
    simpl; try reflexivity; lia.
Qed.

(** C6: [uploadToLexoffice] sends one request; it returns no error when the
    answer is a response whose status is in 200..299, whatever its body; for
    any other status it returns an error whose text carries the status and
    the body as read; for a transport error it returns that error. *)
Theorem C6_upload_success_is_2xx w filename data config :
  let req := uploadRequest X filename data config in
  let answer := fst (http_Do X req w) in
  let run := uploadToLexoffice X filename data config w in
  events run = [EvHTTP req answer] /\
  (forall resp,
      answer = Ok resp -> (200 <= StatusCode resp < 300)%Z ->
      retval run = Ok tt) /\
  (forall resp,
      answer = Ok resp -> ~ (200 <= StatusCode resp < 300)%Z ->
      retval run =
      Err ("upload failed with status " ++ itoa (StatusCode resp)
           ++ ": " ++ ReadAll_data (resp_Body resp))%string) /\
  (forall err, answer = Err err -> retval run = Err err).
Proof.
  intros req answer run. unfold run.
  rewrite uploadToLexoffice_run. fold req. fold answer.
  unfold retval, events; simpl.
  split; [reflexivity|]. split; [|split].
  - intros resp -> Hs. unfold is_2xx.
    destruct (Z.leb_spec 200 (StatusCode resp)),
             (Z.ltb_spec (StatusCode resp) 300); simpl; try reflexivity; lia.
  - intros resp -> Hs. unfold is_2xx.
    destruct (Z.leb_spec 200 (StatusCode resp)),
             (Z.ltb_spec (StatusCode resp) 300); simpl; try reflexivity; lia.
  - intros err ->. reflexivity.
Qed.

(** ** The part loop *)

Lemma processParts_attachment config part mr hasAttachments filename w :
  part_Header part = AttachmentHeader filename ->
  processParts X config (GotPart part :: mr) hasAttachments w =
  bind (processAttachment X filename part config)
       (fun _ => processParts X config mr true) w.
Proof.
  intros Hh. simpl. rewrite Hh.
  unfold processAttachment, bind, logPrintf. simpl.
  destruct (shouldIgnoreFile filename); simpl.
  - destruct (processParts X config mr true w) as [[r w2] t2]; reflexivity.
  - destruct (ReadAll_err (part_Body part)); simpl.
    + destruct (processParts X config mr true w) as [[r w2] t2]; reflexivity.
    + destruct (uploadToLexoffice X filename _ config w) as [[[[]|e] w1] t1];
        simpl;
        destruct (processParts X config mr true w1) as [[r w2] t2]; simpl;
        rewrite <- app_assoc; reflexivity.
Qed.

Lemma processAttachment_run filename part config w :
  let up := uploadToLexoffice X filename (ReadAll_data (part_Body part))
                              config w in
  processAttachment X filename part config w =
  if shouldIgnoreFile filename then
    (tt, w,
     [EvLog ("  Found attachment: " ++ filename)%string;
      EvLog ("  Skipping " ++ filename ++ " (matches ignore pattern)")%string])
  else
    match ReadAll_err (part_Body part) with
    | Some err =>
        (tt, w,
         [EvLog ("  Found attachment: " ++ filename)%string;
          EvLog ("  Failed to read attachment: " ++ err)%string])
    | None =>
        (tt, world_after up,
         EvLog ("  Found attachment: " ++ filename)%string :: events up ++
         [EvLog (match retval up with
                 | Err err => "  Failed to upload to Lexoffice: " ++ err
                 | Ok _ => "  Successfully uploaded " ++ filename
                           ++ " to Lexoffice"
                 end)%string])
    end.
Proof.
  unfold processAttachment, bind, logPrintf. simpl.
  destruct (shouldIgnoreFile filename); [reflexivity|].
  destruct (ReadAll_err (part_Body part)); [reflexivity|].
  unfold retval, events, world_after.
  destruct (uploadToLexoffice X filename _ config w) as [[[[]|e] w1] t1];
    reflexivity.
Qed.

(** An attachment turn asks nothing of the mailbox, and uploads at most the
    part's own file, and only when the filter lets it through. *)
Lemma processAttachment_observed filename part config w :
  let t := events (processAttachment X filename part config w) in
  mutator_commands t = [] /\ fetched_bodies t = [] /\ listed_uids t = [] /\
  uploaded_filenames t =
  if shouldIgnoreFile filename then []
  else match ReadAll_err (part_Body part) with
       | Some _ => []
       | None => [filename]
       end.
Proof.
  simpl. rewrite processAttachment_run.
  destruct (shouldIgnoreFile filename); [repeat split|].
  destruct (ReadAll_err (part_Body part)); [repeat split|].
  rewrite uploadToLexoffice_run. unfold events, retval; simpl.
  repeat split.
Qed.


Lemma listed_uids_app t1 t2 :
  listed_uids (t1 ++ t2) = listed_uids t1 ++ listed_uids t2.
Proof.
  induction t1 as [|e t1 IH]; simpl; [reflexivity|].
  destruct e; try exact IH.
  destruct set; try exact IH.
  destruct r; try exact IH.
  rewrite IH. apply app_assoc.
Qed.

Lemma processParts_observed config mr hasAttachments w :
  let t := events (processParts X config mr hasAttachments w) in
  mutator_commands t = [] /\ fetched_bodies t = [] /\ listed_uids t = [] /\
  forall f, In f (uploaded_filenames t) -> shouldIgnoreFile f = false.
Proof.
  revert hasAttachments w.
  induction mr as [|[part | err] mr IH]; intros b w;
    [simpl; intuition | | simpl; intuition].
  destruct (part_Header part) as [|filename] eqn:Hh.
  - simpl. rewrite Hh. apply IH.
  - cbv zeta. rewrite (processParts_attachment config part mr b filename w Hh).
    rewrite events_bind, mutator_commands_app, fetched_bodies_app,
      listed_uids_app, uploaded_filenames_app.
    destruct (processAttachment_observed filename part config w)
      as (Hm & Hf & Hl & Hu).
    destruct (IH true (world_after (processAttachment X filename part config w)))
      as (Hm' & Hf' & Hl' & Hu').
    rewrite Hm, Hf, Hl, Hm', Hf', Hl', Hu. repeat split.
    intros f Hin. apply in_app_or in Hin as [Hin | Hin]; [|auto].
    destruct (shouldIgnoreFile filename) eqn:Hs; [destruct Hin|].
    destruct (ReadAll_err (part_Body part)); [destruct Hin|].
    destruct Hin as [<- | []]. exact Hs.
Qed.

(** When every part is read, the loop ends with [hasAttachments] telling
    whether an attachment part was met. *)
Lemma processParts_result config parts hasAttachments w :
  retval (processParts X config (map GotPart parts) hasAttachments w) =
  Ok (hasAttachments || existsb is_attachment parts).
Proof.
  revert hasAttachments w.
  induction parts as [|part parts IH]; intros b w.
  - simpl. rewrite orb_false_r. reflexivity.
  - change (map GotPart (part :: parts)) with (GotPart part :: map GotPart parts).
    unfold existsb; fold (existsb is_attachment parts). unfold is_attachment at 1.
    destruct (part_Header part) as [|filename] eqn:Hh.
    + simpl. rewrite Hh. apply IH.
    + rewrite (processParts_attachment config part _ b filename w Hh).
      rewrite retval_bind, IH. simpl. rewrite orb_true_r. reflexivity.
Qed.

Lemma processParts_no_attachment config mr hasAttachments w :
  (forall p, In (GotPart p) mr -> is_attachment p = false) ->
  let run := processParts X config mr hasAttachments w in
  events run = [] /\ world_after run = w /\
  ((forall err, ~ In (PartErr err) mr) -> retval run = Ok hasAttachments).
Proof.
  induction mr as [|[part | err] mr IH]; intros Hno; simpl.
  - auto.
  - assert (Hp : is_attachment part = false) by (apply Hno; left; reflexivity).
    unfold is_attachment in Hp.
    destruct (part_Header part); [|discriminate].
    destruct IH as (He & Hw & Hr); [intros p Hin; apply Hno; right; exact Hin|].
    repeat split; auto.
    intros Herr. apply Hr. intros e Hin. apply (Herr e). right; exact Hin.
  - repeat split. intros Herr. destruct (Herr err). left; reflexivity.
Qed.

(** ** The message processor *)

Lemma moveToFolder_observed w uid folderName :
  let t := events (moveToFolder X uid folderName w) in
  fetched_bodies t = [] /\ listed_uids t = [] /\ uploaded_filenames t = [].
Proof.
  unfold_move. next_call; [|repeat split].
  destruct (existsb _ a); simpl; repeat next_call; repeat split.
Qed.

(** [processMessage] on a message that is fetched and opened: the part
    loop, then the move if an attachment part was met. *)
Lemma processMessage_run w uid config mr :
  message_at X w uid mr ->
  let parts_run := processParts X config mr false (after_fetch X w uid) in
  let move := moveToFolder X uid "done" (world_after parts_run) in
  processMessage X uid config w =
  match retval parts_run with
  | Err err =>
      (Err err, world_after parts_run,
       fetch_events X w uid ++ events parts_run)
  | Ok true =>
      (match retval move with
       | Err err => Err ("failed to move message: " ++ err)%string
       | Ok _ => Ok tt
       end,
       world_after move,
       fetch_events X w uid ++ events parts_run ++ events move ++
       match retval move with
       | Err _ => []
       | Ok _ => [EvLog (moved_line uid)]
       end)
  | Ok false =>
      (Ok tt, world_after parts_run,
       fetch_events X w uid ++ events parts_run ++ [EvLog (skipped_line uid)])
  end.
Proof.
  intros (msg & msgs & literal & rest & w' & Hfetch & Hbody & Hmr).
  unfold processMessage, after_fetch, fetch_events, bind, call, logPrintf, ret.
  rewrite Hfetch. cbn [fst snd]. rewrite Hbody, Hmr.
  unfold retval, world_after, events.
  destruct (processParts X config mr false w') as [[[[|] | err] w1] t1];
    cbn [fst snd app].
  - destruct (moveToFolder X uid "done" w1) as [[[[] | err] w2] t2];
      cbn [fst snd app]; rewrite ?app_nil_r; reflexivity.
  - rewrite ?app_nil_r; reflexivity.
  - rewrite ?app_nil_r; reflexivity.
Qed.


Lemma processMessage_observed w uid config :
  let t := events (processMessage X uid config w) in
  fetched_bodies t = [uid] /\ listed_uids t = [] /\
  forall f, In f (uploaded_filenames t) -> shouldIgnoreFile f = false.
Proof.
  unfold processMessage, bind, call, logPrintf, ret, events at 1 2 3.
  destruct (imap_Fetch X (UIDSetNum uid) bodyFetchOptions w)
    as [[[|msg msgs] | err] w'] eqn:Hfetch; cbn [fst snd app];
    try (simpl; intuition; fail).
  destruct (msg_BodySection msg) as [|literal rest]; [simpl; intuition|].
  destruct (mail_CreateReader X literal) as [mr | err]; [|simpl; intuition].
  pose proof (processParts_observed config mr false w') as Hp.
  destruct (processParts X config mr false w') as [[[[|] | err] w1] t1];
    unfold events in Hp; cbn [fst snd] in Hp;
    destruct Hp as (_ & Hf & Hl & Hu).
  - pose proof (moveToFolder_observed w1 uid "done") as Hm.
    destruct (moveToFolder X uid "done" w1) as [[[[] | err] w2] t2];
      unfold events in Hm; cbn [fst snd] in Hm;
      destruct Hm as (Hf2 & Hl2 & Hu2); cbn [fst snd app];
      cbn [fetched_bodies listed_uids uploaded_filenames bodyFetchOptions];
      rewrite ?fetched_bodies_app, ?listed_uids_app, ?uploaded_filenames_app,
        Hf, Hl, Hf2, Hl2, Hu2; simpl; rewrite ?app_nil_r; auto.
  - cbn [fst snd app].
    cbn [fetched_bodies listed_uids uploaded_filenames bodyFetchOptions].
    rewrite ?fetched_bodies_app, ?listed_uids_app, ?uploaded_filenames_app,
      Hf, Hl; simpl; rewrite ?app_nil_r; auto.
  - cbn [fst snd app].
    cbn [fetched_bodies listed_uids uploaded_filenames bodyFetchOptions].
    rewrite ?fetched_bodies_app, ?listed_uids_app, ?uploaded_filenames_app,
      Hf, Hl; simpl; rewrite ?app_nil_r; auto.
Qed.

(** C3: a message none of whose parts is an attachment part causes no
    command of the mutator (no list, create, copy, store or expunge) and
    leaves the world as the fetch left it; when its parts are read to the
    end, [processMessage] returns no error and logs that the message has no
    attachments. *)
Theorem C3_no_attachment_no_mutation w uid config mr :
  message_at X w uid mr ->
  (forall p, In (GotPart p) mr -> is_attachment p = false) ->
  let run := processMessage X uid config w in
  mutator_commands (events run) = [] /\
  world_after run = after_fetch X w uid /\
  ((forall err, ~ In (PartErr err) mr) ->
   retval run = Ok tt /\
   events run = fetch_events X w uid ++ [EvLog (skipped_line uid)]).
Proof.
  intros Hmsg Hno run. unfold run.
  rewrite (processMessage_run w uid config mr Hmsg).
  destruct (processParts_no_attachment config mr false (after_fetch X w uid) Hno)
    as (He & Hw & Hr).
  destruct (retval (processParts X config mr false (after_fetch X w uid)))
    as [[|] | err] eqn:Hret.
  - (* the loop never sets the flag without an attachment part *)
    exfalso.
    assert (Hflag : forall mr' w',
               (forall p, In (GotPart p) mr' -> is_attachment p = false) ->
               retval (processParts X config mr' false w') <> Ok true).
    { induction mr' as [|[part | e] mr' IH]; intros w' Hno'; simpl;
        try discriminate.
      assert (Hp : is_attachment part = false) by (apply Hno'; left; reflexivity).
      unfold is_attachment in Hp.
      destruct (part_Header part); [|discriminate].
      apply IH. intros p Hin. apply Hno'. right; exact Hin. }
    exact (Hflag mr _ Hno Hret).
  - rewrite events_mk, retval_mk, world_after_mk, He, Hw. simpl.
    repeat split.
  - rewrite events_mk, retval_mk, world_after_mk, He, Hw, app_nil_r. simpl.
    split; [reflexivity|]. split; [reflexivity|].
    intros Hall. specialize (Hr Hall). discriminate.
Qed.


(** C2: when a message whose parts are read to the end has an attachment
    part and no non-skipped attachment fails to be read or uploaded (so also
    when every attachment is skipped), the processor runs [moveToFolder]
    once, for this identifier and the folder [done]: the mutator commands of
    the run are those of that one call, they begin with the folder query,
    and when the run returns no error they are list, create if the folder
    was not listed, copy, store [\Deleted] and expunge. *)
Theorem C2_all_uploaded_then_one_move w uid config parts :
  message_at X w uid (map GotPart parts) ->
  existsb is_attachment parts = true ->
  let parts_run :=
    processParts X config (map GotPart parts) false (after_fetch X w uid) in
  existsb read_fails parts = false ->
  existsb upload_failed (events parts_run) = false ->
  let set := UIDSetNum uid in
  let move := moveToFolder X uid "done" (world_after parts_run) in
  let run := processMessage X uid config w in
  events run =
    fetch_events X w uid ++ events parts_run ++ events move ++
    match retval move with
    | Err _ => []
    | Ok _ => [EvLog (moved_line uid)]
    end /\
  mutator_commands (events run) = mutator_commands (events move) /\
  (exists rest, mutator_commands (events run) = CmdList "" "done" :: rest) /\
  (retval run = Ok tt ->
   exists ensure,
     mutator_commands (events run) =
       ensure ++ [CmdCopy set "done"; CmdStore set addDeleted; CmdExpunge] /\
     (ensure = [CmdList "" "done"] \/
      ensure = [CmdList "" "done"; CmdCreate "done"])).
Proof.
  intros Hmsg Hatt parts_run _ _ set move run.
  assert (Hrun : run =
                 (match retval move with
                  | Err err => Err ("failed to move message: " ++ err)%string
                  | Ok _ => Ok tt
                  end,
                  world_after move,
                  fetch_events X w uid ++ events parts_run ++ events move ++
                  match retval move with
                  | Err _ => []
                  | Ok _ => [EvLog (moved_line uid)]
                  end)).
  { unfold run. rewrite (processMessage_run w uid config _ Hmsg).
    fold parts_run. fold move.
    unfold parts_run at 1. rewrite processParts_result, Hatt. reflexivity. }
  assert (Hcmds : mutator_commands (events run) = mutator_commands (events move)).
  { rewrite Hrun, events_mk, !mutator_commands_app.
    destruct (processParts_observed config (map GotPart parts) false
                                    (after_fetch X w uid)) as (Hm & _).
    fold parts_run in Hm. rewrite Hm.
    destruct (retval move); simpl; rewrite app_nil_r; reflexivity. }
  split; [rewrite Hrun; reflexivity|].
  split; [exact Hcmds|]. split.
  - rewrite Hcmds. apply moveToFolder_starts_with_list.
  - intros Hok. rewrite Hcmds. apply moveToFolder_success.
    rewrite Hrun in Hok. unfold retval at 1 in Hok; cbn [fst snd] in Hok.
    destruct (retval move) as [[]|] eqn:Hmv; [exact Hmv | discriminate].
Qed.

(** C5: no upload request of [processMessage] carries a file name that the
    filter skips; and a turn of the part loop on an attachment whose name
    the filter skips writes two log lines, asks nothing of any collaborator
    and goes on with the next part. *)
Theorem C5_ignored_attachment_never_uploaded :
  (forall w uid config filename,
      In filename (uploaded_filenames (events (processMessage X uid config w))) ->
      shouldIgnoreFile filename = false) /\
  (forall config part mr hasAttachments w filename,
      part_Header part = AttachmentHeader filename ->
      shouldIgnoreFile filename = true ->
      let rest := processParts X config mr true w in
      processParts X config (GotPart part :: mr) hasAttachments w =
      (retval rest, world_after rest,
       [EvLog ("  Found attachment: " ++ filename)%string;
        EvLog ("  Skipping " ++ filename
               ++ " (matches ignore pattern)")%string] ++ events rest)).
Proof.
  split.
  - intros w uid config. apply processMessage_observed.
  - intros config part mr b w filename Hh Hs rest.
    rewrite (processParts_attachment config part mr b filename w Hh).
    unfold bind. rewrite processAttachment_run, Hs. fold rest.
    rewrite (run_eta rest) at 1. reflexivity.
Qed.


(** ** The poll driver *)

Lemma processMessages_cons config msg rest w :
  let one := processMessage X (msg_UID msg) config w in
  let logged := match retval one with
                | Err err => [EvLog (failure_line (msg_UID msg) err)]
                | Ok _ => []
                end in
  let others := processMessages X config rest (world_after one) in
  processMessages X config (msg :: rest) w =
  (tt, world_after others, events one ++ logged ++ events others).
Proof.
  simpl. unfold bind, logPrintf, ret, retval, world_after, events.
  destruct (processMessage X (msg_UID msg) config w) as [[[[] | err] w1] t1];
    cbn [fst snd];
    destruct (processMessages X config rest w1) as [[[] w2] t2];
    cbn [fst snd app]; rewrite ?app_nil_r, <- ?app_assoc; reflexivity.
Qed.

Lemma processMessages_app config before after w :
  let first := processMessages X config before w in
  let second := processMessages X config after (world_after first) in
  processMessages X config (before ++ after) w =
  (tt, world_after second, events first ++ events second).
Proof.
  revert w. induction before as [|msg before IH]; intros w.
  - cbv zeta. change (processMessages X config [] w) with (@ret W unit tt w).
    unfold ret. rewrite world_after_mk, events_mk. simpl.
    destruct (processMessages X config after w) as [[[] w2] t2].
    reflexivity.
  - cbv zeta. rewrite <- app_comm_cons, !processMessages_cons. cbv zeta.
    rewrite IH. rewrite !world_after_mk, !events_mk, <- !app_assoc.
    reflexivity.
Qed.

Lemma processMessages_observed config msgs w :
  let t := events (processMessages X config msgs w) in
  fetched_bodies t = map msg_UID msgs /\ listed_uids t = [].
Proof.
  revert w. induction msgs as [|msg msgs IH]; intros w; [split; reflexivity|].
  cbv zeta. rewrite processMessages_cons. cbv zeta. rewrite events_mk.
  rewrite !fetched_bodies_app, !listed_uids_app.
  destruct (processMessage_observed w (msg_UID msg) config) as (Hf & Hl & _).
  destruct (IH (world_after (processMessage X (msg_UID msg) config w)))
    as (Hf' & Hl').
  rewrite Hf, Hl, Hf', Hl'.
  destruct (retval (processMessage X (msg_UID msg) config w)); split; reflexivity.
Qed.

Lemma processMailbox_bodies config w :
  fetched_bodies (events (processMailbox X config w)) =
  listed_uids (events (processMailbox X config w)).
Proof.
  unfold processMailbox, deferClose, bind, call, logPrintf, ret, events.
  next_call; [|reflexivity].
  next_call; [|reflexivity].
  next_call; [|reflexivity].
  destruct (NumMessages a1 =? 0)%N; [reflexivity|]. simpl.
  next_call; [|reflexivity].
  pose proof (processMessages_observed config a2 w3) as Hobs.
  destruct (processMessages X config a2 w3) as [[[] w4] t4].
  cbv zeta in Hobs. rewrite events_mk in Hobs. destruct Hobs as (Hf & Hl).
  next_call; simpl;
    rewrite ?fetched_bodies_app, ?listed_uids_app, Hf, Hl; simpl;
    rewrite ?app_nil_r; reflexivity.
Qed.

(** C7: whatever the processing of a message returns, the messages listed
    after it are processed: the run of the loop over a batch is the run over
    the messages before [A], then [processMessage] on [A], then one log line
    if that returned an error, then the run over the messages after [A]; so
    the bodies fetched are those of the listed identifiers, each once and in
    the order of the listing, in the loop and in [processMailbox] as a
    whole. *)
Theorem C7_failure_does_not_stop_batch :
  (forall config before A after w,
      let first := processMessages X config before w in
      let one := processMessage X (msg_UID A) config (world_after first) in
      let logged := match retval one with
                    | Err err => [EvLog (failure_line (msg_UID A) err)]
                    | Ok _ => []
                    end in
      let others := processMessages X config after (world_after one) in
      processMessages X config (before ++ A :: after) w =
      (tt, world_after others,
       events first ++ events one ++ logged ++ events others)) /\
  (forall config msgs w,
      fetched_bodies (events (processMessages X config msgs w)) =
      map msg_UID msgs) /\
  (forall config w,
      fetched_bodies (events (processMailbox X config w)) =
      listed_uids (events (processMailbox X config w))).
Proof.
  split; [|split].
  - intros config before A after w. cbv zeta.
    rewrite processMessages_app. cbv zeta.
    rewrite processMessages_cons. cbv zeta.
    rewrite world_after_mk, events_mk. reflexivity.
  - intros config msgs w. apply processMessages_observed.
  - apply processMailbox_bodies.
Qed.

(** ** Startup *)

Lemma getEnvOrDefault_nonblank key defaultValue :
  defaultValue <> EmptyString ->
  getEnvOrDefault X key defaultValue <> EmptyString.
Proof.
  intros Hd. unfold getEnvOrDefault.
  destruct (String.eqb_spec (os_Getenv X key) EmptyString); simpl; auto.
Qed.

Lemma missingConfig_iff :
  missingConfig (loadConfig X) = true <->
  os_Getenv X "IMAP_SERVER" = EmptyString \/
  os_Getenv X "IMAP_USER" = EmptyString \/
  os_Getenv X "IMAP_PASSWORD" = EmptyString \/
  os_Getenv X "LEXOFFICE_API_KEY" = EmptyString.
Proof.
  unfold missingConfig, loadConfig; cbn [IMAPServer IMAPUser IMAPPassword LexofficeKey].
  rewrite !orb_true_iff, !String.eqb_eq. tauto.
Qed.

(** C8, as the code has it: a blank host, user, password or API key ends
    the process with the fatal line before any other event; a blank port
    does not: the port of the configuration is then [993], and it is never
    blank; when host, user, password and key are not blank, [main] goes on
    to [processMailbox], with [-once] always and in the polling mode when
    the poll interval is positive, so that the ticker can be made. *)
Theorem C8_blank_credentials_are_fatal runOnce ticks w :
  let config := loadConfig X in
  IMAPPort config <> EmptyString /\
  (os_Getenv X "IMAP_PORT" = EmptyString -> IMAPPort config = "993"%string) /\
  (os_Getenv X "IMAP_SERVER" = EmptyString \/
   os_Getenv X "IMAP_USER" = EmptyString \/
   os_Getenv X "IMAP_PASSWORD" = EmptyString \/
   os_Getenv X "LEXOFFICE_API_KEY" = EmptyString ->
   mainWithTicker X runOnce ticks w =
     (Ended (Exit 1), w, [EvFatal fatal_line])) /\
  (os_Getenv X "IMAP_SERVER" <> EmptyString ->
   os_Getenv X "IMAP_USER" <> EmptyString ->
   os_Getenv X "IMAP_PASSWORD" <> EmptyString ->
   os_Getenv X "LEXOFFICE_API_KEY" <> EmptyString ->
   runOnce = true \/ (0 < PollInterval config)%Z ->
   retval (mainWithTicker X runOnce ticks w) =
     Ended (if runOnce then Exit 0 else WaitingForTick) /\
   exists line rest,
     events (mainWithTicker X runOnce ticks w) =
     EvLog line :: events (processMailbox X config w) ++ rest).
Proof.
  intros config. split; [|split; [|split]].
  - apply getEnvOrDefault_nonblank. discriminate.
  - intros Hp. unfold config, loadConfig, getEnvOrDefault; cbn [IMAPPort].
    rewrite Hp. reflexivity.
  - intros Hblank. apply missingConfig_iff in Hblank.
    unfold mainWithTicker. rewrite Hblank. reflexivity.
  - intros H1 H2 H3 H4 Hrun.
    assert (Hm : missingConfig (loadConfig X) = false).
    { destruct (missingConfig (loadConfig X)) eqn:Hm; [|reflexivity].
      apply missingConfig_iff in Hm. tauto. }
    unfold mainWithTicker. rewrite Hm. fold config.
    destruct runOnce.
    + rewrite retval_bind, retval_bind. split; [reflexivity|].
      rewrite events_bind, events_bind.
      eexists. eexists. reflexivity.
    + destruct Hrun as [Hrun | Hpos]; [discriminate|].
      unfold NewTicker.
      destruct (Z.leb_spec (PollInterval config) 0); [lia|].
      rewrite !retval_bind. split; [reflexivity|].
      rewrite events_bind, events_bind.
      eexists. eexists. reflexivity.
Qed.

End Properties.

(** ** The theorems at work on the scripted server *)

Lemma message_at_demo sc uid body ms mr :
  Demo.assoc body (Demo.mime sc) = Some mr ->
  filter (fun m => (Demo.m_uid m =? uid)%N) ms = [Demo.message uid body] ->
  message_at (Demo.collaborators sc) (Demo.mailbox ms) uid mr.
Proof.
  intros Hmr Hin.
  exists {| msg_UID := uid; msg_BodySection := [body] |}, [], body, [],
         (Demo.mailbox ms).
  split; [|split].
  - simpl. unfold Demo.fetch. simpl. rewrite Hin. reflexivity.
  - reflexivity.
  - simpl. rewrite Hmr. reflexivity.
Qed.



(** Message 1 carries [invoice.pdf], whose upload is accepted. *)
Lemma C2_all_uploaded_then_one_move_witness :
  let X := Demo.collaborators Demo.script in
  let run := processMessage X 1%N Demo.config
                            (Demo.mailbox [Demo.message 1%N "M1"]) in
  retval run = Ok tt /\
  exists ensure,
    mutator_commands (events run) =
      ensure ++ [CmdCopy (UIDSetNum 1%N) "done";
                 CmdStore (UIDSetNum 1%N) addDeleted; CmdExpunge] /\
    (ensure = [CmdList "" "done"] \/
     ensure = [CmdList "" "done"; CmdCreate "done"]).
Proof.
  intros X run. split; [reflexivity|].
  refine (proj2 (proj2 (proj2 (C2_all_uploaded_then_one_move X
            (Demo.mailbox [Demo.message 1%N "M1"]) 1%N Demo.config
            [ {| part_Header := InlineHeader;
                 part_Body := {| ReadAll_data := "see attachment";
                                 ReadAll_err := None |} |};
              {| part_Header := AttachmentHeader "invoice.pdf";
                 part_Body := {| ReadAll_data := "%PDF-1";
                                 ReadAll_err := None |} |} ]
            _ _ _ _))) _).
  - apply (message_at_demo Demo.script) with (body := "M1"%string); reflexivity.
  - reflexivity.
  - reflexivity.
  - vm_compute. reflexivity.
  - reflexivity.
Defined.

(** Message 2 has a text part only. *)
Lemma C3_no_attachment_no_mutation_witness :
  let X := Demo.collaborators Demo.script in
  let w := Demo.mailbox [Demo.message 2%N "M2"] in
  let run := processMessage X 2%N Demo.config w in
  mutator_commands (events run) = [] /\
  world_after run = w /\
  retval run = Ok tt /\
  events run = fetch_events X w 2%N ++ [EvLog (skipped_line 2%N)].
Proof.
  intros X w run.
  assert (Hmsg : message_at X w 2%N [Demo.text "no attachment here"])
    by (apply (message_at_demo Demo.script) with (body := "M2"%string); reflexivity).
  assert (Hno : forall p, In (GotPart p) [Demo.text "no attachment here"] ->
                          is_attachment p = false).
  { intros p [H | []]. injection H as <-. reflexivity. }
  destruct (C3_no_attachment_no_mutation X w 2%N Demo.config _ Hmsg Hno)
    as (H1 & H2 & H3).
  split; [exact H1|]. split; [exact H2|].
  apply H3. intros err [H | []]. discriminate.
Defined.

Lemma C5_ignored_attachment_never_uploaded_witness :
  let X := Demo.collaborators Demo.script in
  let w := Demo.mailbox [Demo.message 7%N "M3"] in
  shouldIgnoreFile "receipt.pdf" = false /\
  retval (processParts X Demo.config [Demo.file "AGB_terms.pdf" "%PDF-2"]
                       false w) = Ok true /\
  events (processParts X Demo.config [Demo.file "AGB_terms.pdf" "%PDF-2"]
                       false w) =
    [EvLog "  Found attachment: AGB_terms.pdf";
     EvLog "  Skipping AGB_terms.pdf (matches ignore pattern)"].
Proof.
  intros X w.
  destruct (C5_ignored_attachment_never_uploaded X) as (Hnever & Hskip).
  split.
  - apply (Hnever w 7%N Demo.config "receipt.pdf"%string).
    vm_compute. left; reflexivity.
  - unfold Demo.file.
    rewrite (Hskip Demo.config
               {| part_Header := AttachmentHeader "AGB_terms.pdf";
                  part_Body := {| ReadAll_data := "%PDF-2";
                                  ReadAll_err := None |} |}
               [] false w "AGB_terms.pdf"%string eq_refl eq_refl).
    split; reflexivity.
Defined.

Lemma C6_upload_success_is_2xx_witness :
  let X := Demo.collaborators Demo.script in
  let w := Demo.mailbox [] in
  retval (uploadToLexoffice X "invoice.pdf" "%PDF-1" Demo.config w) = Ok tt /\
  retval (uploadToLexoffice X "receipt.pdf" "%PDF-3" Demo.config w) =
    Err "upload failed with status 500: rejected".
Proof.
  intros X w. split.
  - destruct (C6_upload_success_is_2xx X w "invoice.pdf" "%PDF-1" Demo.config)
      as (_ & Hok & _).
    apply (Hok {| StatusCode := 201;
                  resp_Body := {| ReadAll_data := "{}";
                                  ReadAll_err := None |} |});
      [reflexivity | simpl; lia].
  - destruct (C6_upload_success_is_2xx X w "receipt.pdf" "%PDF-3" Demo.config)
      as (_ & _ & Hfail & _).
    apply (Hfail {| StatusCode := 500;
                    resp_Body := {| ReadAll_data := "rejected";
                                    ReadAll_err := None |} |});
      [reflexivity | simpl; lia].
Defined.

(** Messages 3 and 9 fail (a part that cannot be read, a body that does
    not parse); the messages listed after them are processed all the
    same. *)
Lemma C7_failure_does_not_stop_batch_witness :
  let X := Demo.collaborators Demo.script in
  let w := Demo.mailbox [Demo.message 1%N "M1"; Demo.message 3%N "M4";
                         Demo.message 9%N "M9"; Demo.message 2%N "M2"] in
  is_ok (retval (processMessage X 3%N Demo.config w)) = false /\
  fetched_bodies (events (processMailbox X Demo.config w)) = [1; 3; 9; 2]%N.
Proof.
  intros X w. split; [reflexivity|].
  rewrite (proj2 (proj2 (C7_failure_does_not_stop_batch X)) Demo.config w).
  reflexivity.
Defined.

(** Without [IMAP_PORT] in the environment the process starts, on port
    993. *)
Lemma C8_counterexample :
  let X := Demo.collaborators Demo.script in
  let run := mainWithTicker X true 0 (Demo.mailbox []) in
  os_Getenv X "IMAP_PORT" = EmptyString /\
  retval run = Ended (Exit 0) /\
  In (EvDialTLS "mail.example.org:993" (Ok tt)) (events run) /\
  forall line, ~ In (EvFatal line) (events run).
Proof.
  vm_compute. repeat split; auto.
  intros line H. repeat (destruct H as [H | H]; [discriminate|]). exact H.
Qed.

Lemma C8_blank_credentials_are_fatal_witness :
  let w := Demo.mailbox [Demo.message 1%N "M1"] in
  mainWithTicker (Demo.collaborators Demo.script_no_port_no_key) true 0 w =
    (Ended (Exit 1), w, [EvFatal fatal_line]) /\
  retval (mainWithTicker (Demo.collaborators Demo.script) true 0 w) =
    Ended (Exit 0) /\
  retval (mainWithTicker (Demo.collaborators Demo.script) false 1 w) =
    Ended WaitingForTick.
Proof.
  intros w. split; [|split].
  - apply (C8_blank_credentials_are_fatal
             (Demo.collaborators Demo.script_no_port_no_key) true 0 w).
    right; right; right. reflexivity.
  - apply (C8_blank_credentials_are_fatal
             (Demo.collaborators Demo.script) true 0 w);
      try discriminate. left. reflexivity.
  - apply (C8_blank_credentials_are_fatal
             (Demo.collaborators Demo.script) false 1 w);
      try discriminate. right. vm_compute. reflexivity.
Defined.


(** * Further properties of the program *)

Section Further.
Context {W : Type} (X : Collaborators W).

Lemma http_requests_app t1 t2 :
  http_requests (t1 ++ t2) = http_requests t1 ++ http_requests t2.
Proof.
  induction t1 as [|e t1 IH]; simpl; [reflexivity|].
  destruct e; simpl; congruence.
Qed.

Lemma dialled_app t1 t2 : dialled (t1 ++ t2) = dialled t1 ++ dialled t2.
Proof.
  induction t1 as [|e t1 IH]; simpl; [reflexivity|].
  destruct e; simpl; congruence.
Qed.

Lemma touches_only_incl uids uids' e :
  incl uids uids' -> touches_only uids e -> touches_only uids' e.
Proof.
  intros Hincl. destruct e; simpl; auto.
  - destruct set; auto.
  - intros (Hd & uid & Hin & Hs). eauto 6.
  - intros (Hd & uid & Hin & Hs). eauto 6.
Qed.

(** ** What the part loop uploads *)

Lemma processAttachment_requests filename part config w :
  part_Header part = AttachmentHeader filename ->
  http_requests (events (processAttachment X filename part config w)) =
  upload_of X config part.
Proof.
  intros Hh. unfold upload_of. rewrite Hh, processAttachment_run.
  destruct (shouldIgnoreFile filename); [reflexivity|].
  destruct (ReadAll_err (part_Body part)); [reflexivity|].
  rewrite uploadToLexoffice_run, events_mk. simpl. reflexivity.
Qed.

Lemma processAttachment_kinds filename part config w uids :
  Forall message_event (events (processAttachment X filename part config w)) /\
  Forall (touches_only uids)
         (events (processAttachment X filename part config w)).
Proof.
  rewrite processAttachment_run.
  destruct (shouldIgnoreFile filename);
    [split; repeat constructor|].
  destruct (ReadAll_err (part_Body part));
    [split; repeat constructor|].
  rewrite uploadToLexoffice_run, events_mk. simpl.
  split; repeat constructor.
Qed.

Lemma processParts_requests config mr hasAttachments w :
  http_requests (events (processParts X config mr hasAttachments w)) =
  flat_map (upload_of X config) (readable_parts mr).
Proof.
  revert hasAttachments w.
  induction mr as [|[part | err] mr IH]; intros b w; try reflexivity.
  cbn [readable_parts flat_map].
  destruct (part_Header part) as [|filename] eqn:Hh.
  - simpl. rewrite Hh. unfold upload_of at 1. rewrite Hh. apply IH.
  - rewrite (processParts_attachment X config part mr b filename w Hh).
    rewrite events_bind, http_requests_app, IH.
    rewrite (processAttachment_requests filename part config w Hh).
    reflexivity.
Qed.

Lemma processParts_kinds config mr hasAttachments w uids :
  Forall message_event (events (processParts X config mr hasAttachments w)) /\
  Forall (touches_only uids)
         (events (processParts X config mr hasAttachments w)).
Proof.
  revert hasAttachments w.
  induction mr as [|[part | err] mr IH]; intros b w;
    try (split; constructor).
  destruct (part_Header part) as [|filename] eqn:Hh.
  - simpl. rewrite Hh. apply IH.
  - rewrite (processParts_attachment X config part mr b filename w Hh).
    rewrite events_bind.
    destruct (processAttachment_kinds filename part config w uids) as (H1 & H2).
    destruct (IH true (world_after (processAttachment X filename part config w)))
      as (H3 & H4).
    split; apply Forall_app; auto.
Qed.

(** The part loop stops at the first part that cannot be read: what comes
    after it in the message has no influence. *)
Lemma processParts_stops_at_error config parts err rest hasAttachments w :
  let run := processParts X config (map GotPart parts ++ PartErr err :: rest)
                          hasAttachments w in
  retval run = Err ("failed to read part: " ++ err)%string /\
  events run =
    events (processParts X config (map GotPart parts) hasAttachments w) /\
  world_after run =
    world_after (processParts X config (map GotPart parts) hasAttachments w).
Proof.
  revert hasAttachments w.
  induction parts as [|part parts IH]; intros b w; [repeat split|].
  cbv zeta.
  change (map GotPart (part :: parts) ++ PartErr err :: rest)
    with (GotPart part :: (map GotPart parts ++ PartErr err :: rest)).
  change (map GotPart (part :: parts)) with (GotPart part :: map GotPart parts).
  destruct (part_Header part) as [|filename] eqn:Hh.
  - simpl. rewrite Hh. apply IH.
  - rewrite !(processParts_attachment X config part _ b filename w Hh).
    rewrite retval_bind, !events_bind, !world_after_bind.
    destruct (IH true (world_after (processAttachment X filename part config w)))
      as (H1 & H2 & H3).
    rewrite H1, H2, H3. repeat split.
Qed.


(** ** More on the mailbox-state mutator *)

Ltac unfold_run :=
  unfold moveToFolder, ensureFolderExists, bind, call, ret, logPrintf,
    retval, events, world_after; simpl.

Ltac next_answer :=
  match goal with
  | |- context [match ?c with pair _ _ => _ end] =>
      lazymatch type of c with
      | (result _ * _)%type => idtac
      end;
      let r := fresh "r" in
      let w := fresh "w" in
      let H := fresh "Hcall" in
      destruct c as [r w] eqn:H; destruct r; simpl
  end.

Lemma moveToFolder_kinds w uid folderName :
  let t := events (moveToFolder X uid folderName w) in
  Forall message_event t /\ http_requests t = [] /\ dialled t = [].
Proof.
  unfold_run. next_answer; [|repeat constructor].
  destruct (existsb _ a); simpl; repeat next_answer; repeat constructor.
Qed.

Lemma moveToFolder_touches w uid :
  Forall (touches_only [uid]) (events (moveToFolder X uid "done" w)).
Proof.
  assert (Hu : exists u, In u [uid] /\ UIDSetNum uid = UIDSetNum u)
    by (exists uid; split; [left|]; reflexivity).
  unfold_run. next_answer; [|repeat constructor; auto].
  destruct (existsb _ a); simpl; repeat next_answer;
    repeat constructor; auto.
Qed.

(** [moveToFolder] stops at the first command that is answered with an
    error and returns that error under the name of the step; it returns no
    error exactly when no command failed. *)
Theorem moveToFolder_first_failure w uid folderName :
  let run := moveToFolder X uid folderName w in
  (retval run = Ok tt <->
   forall e, In e (events run) -> failed_answer e = None) /\
  (forall e msg,
      In e (events run) -> failed_answer e = Some msg ->
      retval run = Err (step_label e ++ msg)%string /\
      exists pre,
        events run = pre ++ [e] /\
        forall e', In e' pre -> failed_answer e' = None).
Proof.
  assert (Hlast : forall (pre : list event) (e : event) msg r,
             (forall e', In e' pre -> failed_answer e' = None) ->
             failed_answer e = Some msg ->
             r = Err (step_label e ++ msg)%string ->
             (r = Ok tt <->
              forall e0, In e0 (pre ++ [e]) -> failed_answer e0 = None) /\
             (forall e0 msg0,
                 In e0 (pre ++ [e]) -> failed_answer e0 = Some msg0 ->
                 r = Err (step_label e0 ++ msg0)%string /\
                 exists pre0,
                   pre ++ [e] = pre0 ++ [e0] /\
                   forall e', In e' pre0 -> failed_answer e' = None)).
  { intros pre e msg r Hpre He ->. split.
    - split; [discriminate|]. intros Hall.
      rewrite (Hall e) in He; [discriminate | apply in_or_app; right; left; reflexivity].
    - intros e0 msg0 Hin H0. apply in_app_or in Hin as [Hin | [<- | []]].
      + rewrite (Hpre e0 Hin) in H0. discriminate.
      + rewrite He in H0. injection H0 as <-. split; [reflexivity|].
        exists pre. auto. }
  assert (Hnone : forall (t : list event) (r : result unit),
             (forall e', In e' t -> failed_answer e' = None) ->
             r = Ok tt ->
             (r = Ok tt <-> forall e0, In e0 t -> failed_answer e0 = None) /\
             (forall e0 msg0,
                 In e0 t -> failed_answer e0 = Some msg0 ->
                 r = Err (step_label e0 ++ msg0)%string /\
                 exists pre0,
                   t = pre0 ++ [e0] /\
                   forall e', In e' pre0 -> failed_answer e' = None)).
  { intros t r Ht ->. split; [tauto|].
    intros e0 msg0 Hin H0. rewrite (Ht e0 Hin) in H0. discriminate. }
  assert (Hin : forall (l : list event),
             Forall (fun e => failed_answer e = None) l ->
             forall e', In e' l -> failed_answer e' = None)
    by (intros l Hl; apply Forall_forall; exact Hl).
  unfold_run.
  next_answer;
    [|apply (Hlast [] _ msg); [intros ? [] | reflexivity | reflexivity]].
  destruct (existsb _ a); simpl.
  - next_answer;
      [|apply (Hlast [_] _ msg);
        [apply Hin; repeat constructor | reflexivity | reflexivity]].
    next_answer;
      [|apply (Hlast [_; _] _ msg);
        [apply Hin; repeat constructor | reflexivity | reflexivity]].
    next_answer;
      [|apply (Hlast [_; _; _] _ msg);
        [apply Hin; repeat constructor | reflexivity | reflexivity]].
    apply (Hnone [_; _; _; _]); [apply Hin; repeat constructor | reflexivity].
  - next_answer;
      [|apply (Hlast [_; _] _ msg);
        [apply Hin; repeat constructor | reflexivity | reflexivity]].
    next_answer;
      [|apply (Hlast [_; _; _] _ msg);
        [apply Hin; repeat constructor | reflexivity | reflexivity]].
    next_answer;
      [|apply (Hlast [_; _; _; _] _ msg);
        [apply Hin; repeat constructor | reflexivity | reflexivity]].
    next_answer;
      [|apply (Hlast [_; _; _; _; _] _ msg);
        [apply Hin; repeat constructor | reflexivity | reflexivity]].
    apply (Hnone [_; _; _; _; _; _]);
      [apply Hin; repeat constructor | reflexivity].
Qed.


Lemma split_at_cons {A} (a : A) l pre e post :
  a :: l = pre ++ e :: post ->
  (pre = [] /\ e = a /\ post = l) \/
  (exists pre', pre = a :: pre' /\ l = pre' ++ e :: post).
Proof.
  destruct pre as [|b pre]; simpl; intros H; injection H as -> ->.
  - left. auto.
  - right. exists pre. auto.
Qed.

Ltac split_trace H :=
  repeat
    (first
       [ apply split_at_cons in H;
         destruct H as [(-> & -> & ->) | (? & -> & H)]
       | destruct (app_cons_not_nil _ _ _ H) ]).

Ltac find_in := solve [repeat (first [left; reflexivity | right])].

Ltac solve_order :=
  simpl;
  repeat match goal with u : unit |- _ => destruct u end;
  first [ exact I | eexists; find_in | split; find_in | find_in ].

(** In a run of [moveToFolder] the message is flagged [\Deleted] only after
    its copy succeeded, the expunge is asked only after the flag was set,
    and the copy is asked only after the folder query succeeded. *)
Theorem moveToFolder_deletes_only_after_copy w uid folderName pre e post :
  events (moveToFolder X uid folderName w) = pre ++ e :: post ->
  match e with
  | EvCopy _ _ _ =>
      exists mailboxes, In (EvList "" folderName (Ok mailboxes)) pre
  | EvStore _ _ _ => In (EvCopy (UIDSetNum uid) folderName (Ok tt)) pre
  | EvExpunge _ =>
      In (EvCopy (UIDSetNum uid) folderName (Ok tt)) pre /\
      In (EvStore (UIDSetNum uid) addDeleted (Ok tt)) pre
  | _ => True
  end.
Proof.
  unfold_run. next_answer.
  - destruct (existsb _ a); simpl; repeat next_answer; intros H;
      split_trace H; solve_order.
  - intros H; split_trace H; solve_order.
Qed.


(** ** More on the message processor *)

Lemma dialled_message_events t : Forall message_event t -> dialled t = [].
Proof.
  induction 1 as [|e t He _ IH]; [reflexivity|].
  destruct e; simpl in *; auto; contradiction.
Qed.

Lemma fetch_events_kinds w uid :
  Forall message_event (fetch_events X w uid) /\
  Forall (touches_only [uid]) (fetch_events X w uid) /\
  mutator_commands (fetch_events X w uid) = [] /\
  http_requests (fetch_events X w uid) = [].
Proof.
  unfold fetch_events. repeat split; repeat constructor.
Qed.

(** The trace of [processMessage]: the fetch, then what the part loop did,
    then what the move did. *)
Lemma processMessage_shape w uid config :
  exists t_parts t_move,
    events (processMessage X uid config w) =
      fetch_events X w uid ++ t_parts ++ t_move /\
    mutator_commands t_parts = [] /\
    Forall message_event t_parts /\
    Forall (touches_only [uid]) t_parts /\
    http_requests t_move = [] /\
    Forall message_event t_move /\
    Forall (touches_only [uid]) t_move.
Proof.
  unfold processMessage, fetch_events, bind, call, logPrintf, ret, events at 1.
  destruct (imap_Fetch X (UIDSetNum uid) bodyFetchOptions w)
    as [[[|msg msgs] | err] w'] eqn:Hfetch; cbn [fst snd app];
    try (exists [], []; repeat split; constructor).
  destruct (msg_BodySection msg) as [|literal rest];
    [exists [], []; repeat split; constructor|].
  destruct (mail_CreateReader X literal) as [mr | err];
    [|exists [], []; repeat split; constructor].
  destruct (processParts_observed X config mr false w') as (Hm & _).
  destruct (processParts_kinds config mr false w' [uid]) as (Hk & Ht).
  destruct (processParts X config mr false w') as [[[[|] | err] w1] t1];
    rewrite events_mk in Hm, Hk, Ht; cbn [fst snd].
  - destruct (moveToFolder_kinds w1 uid "done") as (Hk2 & Hh2 & _).
    pose proof (moveToFolder_touches w1 uid) as Ht2.
    destruct (moveToFolder X uid "done" w1) as [[[[] | err] w2] t2];
      rewrite events_mk in Hk2, Hh2, Ht2; cbn [fst snd app].
    + exists t1, (t2 ++ [EvLog (moved_line uid)]).
      rewrite http_requests_app, Hh2. repeat split; auto.
      * apply Forall_app; split; [assumption | repeat constructor].
      * apply Forall_app; split; [assumption | repeat constructor].
    + exists t1, t2. rewrite app_nil_r. repeat split; auto.
  - exists t1, [EvLog (skipped_line uid)].
    repeat split; auto; repeat constructor.
  - exists t1, []. rewrite !app_nil_r. repeat split; auto; constructor.
Qed.

Lemma processMessage_kinds w uid config :
  let t := events (processMessage X uid config w) in
  Forall message_event t /\ Forall (touches_only [uid]) t.
Proof.
  destruct (processMessage_shape w uid config)
    as (t1 & t2 & -> & _ & Hk1 & Ht1 & _ & Hk2 & Ht2).
  destruct (fetch_events_kinds w uid) as (Hk0 & Ht0 & _).
  split; repeat (apply Forall_app; split); assumption.
Qed.

(** Within the processing of one message every upload comes before the
    first command of the mutator. *)
Theorem processMessage_uploads_before_move w uid config :
  exists before after,
    events (processMessage X uid config w) = before ++ after /\
    mutator_commands before = [] /\
    http_requests after = [].
Proof.
  destruct (processMessage_shape w uid config)
    as (t1 & t2 & Heq & Hm1 & _ & _ & Hh2 & _).
  exists (fetch_events X w uid ++ t1), t2.
  rewrite Heq, app_assoc, mutator_commands_app, Hm1.
  repeat split; assumption.
Qed.

(** For a message that is fetched and opened, the upload requests are, in
    the order of the parts, one for each attachment part that is read before
    the first part error, whose name the filter lets through and whose
    payload can be read; the request carries the name and the payload of
    the part.  A failed upload stops nothing. *)
Theorem processMessage_uploads w uid config mr :
  message_at X w uid mr ->
  http_requests (events (processMessage X uid config w)) =
  flat_map (upload_of X config) (readable_parts mr).
Proof.
  intros Hmsg. rewrite (processMessage_run X w uid config mr Hmsg).
  pose proof (processParts_requests config mr false (after_fetch X w uid))
    as Hreq.
  destruct (moveToFolder_kinds
              (world_after (processParts X config mr false (after_fetch X w uid)))
              uid "done") as (_ & Hmv & _).
  destruct (retval (processParts X config mr false (after_fetch X w uid)))
    as [[|] | err];
    rewrite events_mk, !http_requests_app, ?Hreq, ?Hmv; simpl;
    rewrite ?app_nil_r; try reflexivity.
  destruct (retval (moveToFolder X uid "done" _)); simpl;
    rewrite ?app_nil_r; reflexivity.
Qed.

(** The ways [processMessage] fails before it looks at a part: the fetch
    fails, it answers with no message, the message has no body section, or
    the body cannot be opened.  Each returns its error after the fetch and
    nothing else: no upload, no command of the mutator. *)
Theorem processMessage_fetch_errors w uid config :
  let answer := fst (imap_Fetch X (UIDSetNum uid) bodyFetchOptions w) in
  let run := processMessage X uid config w in
  (forall err,
      answer = Err err ->
      retval run = Err ("fetch failed: " ++ err)%string /\
      events run = fetch_events X w uid) /\
  (answer = Ok [] ->
   retval run = Err "message not found"%string /\
   events run = fetch_events X w uid) /\
  (forall msg msgs,
      answer = Ok (msg :: msgs) -> msg_BodySection msg = [] ->
      retval run = Err "no body found"%string /\
      events run = fetch_events X w uid) /\
  (forall msg msgs literal rest err,
      answer = Ok (msg :: msgs) -> msg_BodySection msg = literal :: rest ->
      mail_CreateReader X literal = Err err ->
      retval run = Err ("failed to create mail reader: " ++ err)%string /\
      events run = fetch_events X w uid).
Proof.
  unfold processMessage, fetch_events, bind, call, logPrintf, ret,
    retval, events.
  destruct (imap_Fetch X (UIDSetNum uid) bodyFetchOptions w) as [answer w'].
  cbn [fst snd]. split; [|split; [|split]].
  - intros err ->. split; reflexivity.
  - intros ->. split; reflexivity.
  - intros msg msgs -> ->. split; reflexivity.
  - intros msg msgs literal rest err -> -> ->. split; reflexivity.
Qed.

(** When a part cannot be read, [processMessage] returns the error and
    issues no command of the mutator, whatever was uploaded before: the
    attachments read before the error have been uploaded, the message is
    not moved, and the parts after the error are not looked at. *)
Theorem processMessage_part_error w uid config parts err rest :
  message_at X w uid (map GotPart parts ++ PartErr err :: rest) ->
  let run := processMessage X uid config w in
  retval run = Err ("failed to read part: " ++ err)%string /\
  mutator_commands (events run) = [] /\
  http_requests (events run) = flat_map (upload_of X config) parts /\
  events run =
    fetch_events X w uid ++
    events (processParts X config (map GotPart parts) false
                         (after_fetch X w uid)).
Proof.
  intros Hmsg run. unfold run.
  rewrite (processMessage_run X w uid config _ Hmsg).
  destruct (processParts_stops_at_error config parts err rest false
                                        (after_fetch X w uid))
    as (Hret & Hev & Hw).
  rewrite Hret, retval_mk, events_mk, Hev.
  destruct (processParts_observed X config (map GotPart parts) false
                                  (after_fetch X w uid)) as (Hm & _).
  rewrite mutator_commands_app, http_requests_app, Hm, processParts_requests.
  assert (Hrp : readable_parts (map GotPart parts) = parts)
    by (clear; induction parts as [|p ps IH]; simpl; congruence).
  rewrite Hrp. repeat split.
Qed.


(** ** More on the poll driver *)

Lemma processMessages_kinds config msgs w :
  let t := events (processMessages X config msgs w) in
  Forall message_event t /\ Forall (touches_only (map msg_UID msgs)) t.
Proof.
  revert w. induction msgs as [|msg msgs IH]; intros w;
    [split; constructor|].
  cbv zeta. rewrite processMessages_cons. cbv zeta. rewrite events_mk.
  destruct (processMessage_kinds w (msg_UID msg) config) as (Hk & Ht).
  destruct (IH (world_after (processMessage X (msg_UID msg) config w)))
    as (Hk' & Ht').
  assert (Hlog : forall uids,
             Forall message_event
               match retval (processMessage X (msg_UID msg) config w) with
               | Ok _ => []
               | Err err => [EvLog (failure_line (msg_UID msg) err)]
               end /\
             Forall (touches_only uids)
               match retval (processMessage X (msg_UID msg) config w) with
               | Ok _ => []
               | Err err => [EvLog (failure_line (msg_UID msg) err)]
               end).
  { intros uids.
    destruct (retval (processMessage X (msg_UID msg) config w));
      split; repeat constructor. }
  destruct (Hlog (map msg_UID (msg :: msgs))) as (Hl1 & Hl2).
  split; repeat (apply Forall_app; split); auto.
  - eapply Forall_impl; [|exact Ht]. intros e.
    apply touches_only_incl. intros u [<- | []]. left; reflexivity.
  - eapply Forall_impl; [|exact Ht']. intros e.
    apply touches_only_incl. intros u Hu. right; exact Hu.
Qed.

(** The runs of [processMailbox], one shape for each place it returns. *)
Lemma processMailbox_traces config w :
  let addr := (IMAPServer config ++ ":" ++ IMAPPort config)%string in
  let t := events (processMailbox X config w) in
  let start :=
    [EvLog "Connecting to IMAP server..."; EvDialTLS addr (Ok tt)] in
  let logged_in :=
    start ++ [EvLogin (IMAPUser config) (IMAPPassword config) (Ok tt);
              EvLog "Logged in successfully"] in
  (exists err,
      t = [EvLog "Connecting to IMAP server..."; EvDialTLS addr (Err err);
           EvLog ("Failed to connect: " ++ err)%string]) \/
  (exists err,
      t = start ++
          [EvLogin (IMAPUser config) (IMAPPassword config) (Err err);
           EvLog ("Login failed: " ++ err)%string; EvClose]) \/
  (exists err,
      t = logged_in ++
          [EvSelect "INBOX" (Err err);
           EvLog ("Failed to select INBOX: " ++ err)%string; EvClose]) \/
  t = logged_in ++
      [EvSelect "INBOX" (Ok {| NumMessages := 0 |});
       EvLog "No messages in INBOX"; EvClose] \/
  (exists n err,
      n <> 0%N /\
      t = logged_in ++
          [EvSelect "INBOX" (Ok {| NumMessages := n |});
           EvLog ("Found " ++ utoa n ++ " messages in INBOX")%string;
           EvFetch (SeqSetRange 1 n) listFetchOptions (Err err);
           EvLog ("Failed to fetch messages: " ++ err)%string; EvClose]) \/
  (exists n msgs w' tail,
      n <> 0%N /\
      t = logged_in ++
          [EvSelect "INBOX" (Ok {| NumMessages := n |});
           EvLog ("Found " ++ utoa n ++ " messages in INBOX")%string;
           EvFetch (SeqSetRange 1 n) listFetchOptions (Ok msgs);
           EvLog ("Processing " ++ utoa (N.of_nat (List.length msgs))
                   ++ " messages from INBOX")%string] ++
          events (processMessages X config msgs w') ++ tail ++ [EvClose] /\
      (tail = [EvLogout (Ok tt)] \/
       exists err,
         tail = [EvLogout (Err err);
                 EvLog ("Logout failed: " ++ err)%string])).
Proof.
  unfold processMailbox, deferClose, bind, call, logPrintf, ret, events at 1.
  next_answer; [destruct a | left; eexists; reflexivity].
  right. next_answer; [destruct a | left; eexists; reflexivity].
  right. next_answer; [| left; eexists; reflexivity].
  right. destruct a as [n]. cbn [NumMessages].
  destruct (N.eqb_spec n 0) as [-> | Hn]; [left; reflexivity|].
  right. simpl. next_answer; [|left; exists n; eexists; split; [exact Hn | reflexivity]].
  right.
  match goal with
  | |- context [processMessages X config a ?w'] =>
      exists n, a, w';
      destruct (processMessages X config a w') as [[[] wm] tm]
  end.
  rewrite events_mk. next_answer.
  - exists [EvLogout (Ok a0)]. destruct a0. split; [exact Hn|].
    split; [|left; reflexivity].
    simpl. rewrite ?app_nil_r, <- ?app_assoc. reflexivity.
  - exists [EvLogout (Err msg); EvLog ("Logout failed: " ++ msg)%string].
    split; [exact Hn|]. split; [|right; eexists; reflexivity].
    simpl. rewrite ?app_nil_r, <- ?app_assoc. reflexivity.
Qed.


Lemma message_event_in t e : Forall message_event t -> In e t -> message_event e.
Proof. intros Ht. apply Forall_forall. exact Ht. Qed.

Ltac in_prefix H :=
  repeat (destruct H as [H | H]; [try discriminate H|]).

(** A cycle dials once.  When the dial fails nothing else is asked; when it
    succeeds the connection is closed once, as the last event of the cycle,
    wherever the cycle returns. *)
Theorem processMailbox_closes_connection config w :
  let addr := (IMAPServer config ++ ":" ++ IMAPPort config)%string in
  let t := events (processMailbox X config w) in
  dialled t = [addr] /\
  ((exists err,
       t = [EvLog "Connecting to IMAP server..."; EvDialTLS addr (Err err);
            EvLog ("Failed to connect: " ++ err)%string]) \/
   (exists body,
       t = EvLog "Connecting to IMAP server..." :: EvDialTLS addr (Ok tt)
           :: body ++ [EvClose] /\
       ~ In EvClose body)).
Proof.
  intros addr t.
  destruct (processMailbox_traces config w)
    as [(err & H) | [(err & H) | [(err & H) | [H | [(n & err & Hn & H) |
        (n & msgs & w' & tail & Hn & H & Htail)]]]]];
    fold addr in H; fold t in H; rewrite H; clear H.
  - split; [reflexivity|]. left. eauto.
  - split; [reflexivity|]. right. eexists [_; _]. split; [reflexivity|].
    intros Hin. in_prefix Hin. exact Hin.
  - split; [reflexivity|]. right. eexists [_; _; _; _]. split; [reflexivity|].
    intros Hin. in_prefix Hin. exact Hin.
  - split; [reflexivity|]. right. eexists [_; _; _; _]. split; [reflexivity|].
    intros Hin. in_prefix Hin. exact Hin.
  - split; [reflexivity|]. right. eexists [_; _; _; _; _; _].
    split; [reflexivity|]. intros Hin. in_prefix Hin. exact Hin.
  - destruct (processMessages_kinds config msgs w') as (Hk & _).
    split.
    + rewrite !dialled_app, (dialled_message_events _ Hk).
      destruct Htail as [-> | (err & ->)]; reflexivity.
    + right.
      exists ([EvLogin (IMAPUser config) (IMAPPassword config) (Ok tt);
               EvLog "Logged in successfully";
               EvSelect "INBOX" (Ok {| NumMessages := n |});
               EvLog ("Found " ++ utoa n ++ " messages in INBOX")%string;
               EvFetch (SeqSetRange 1 n) listFetchOptions (Ok msgs);
               EvLog ("Processing " ++ utoa (N.of_nat (List.length msgs))
                       ++ " messages from INBOX")%string] ++
              events (processMessages X config msgs w') ++ tail).
      split; [simpl; rewrite <- !app_assoc; reflexivity|].
      intros Hin. apply in_app_or in Hin as [Hin | Hin];
        [in_prefix Hin; exact Hin|].
      apply in_app_or in Hin as [Hin | Hin].
      * exact (message_event_in _ _ Hk Hin).
      * destruct Htail as [-> | (err & ->)]; in_prefix Hin; exact Hin.
Qed.

(** A cycle fetches no body, uploads nothing, issues no command of the
    mutator and sends no logout unless the dial, the login, the selection
    of the inbox and the listing all succeeded and the inbox was not
    empty. *)
Theorem processMailbox_needs_session config w :
  let addr := (IMAPServer config ++ ":" ++ IMAPPort config)%string in
  let t := events (processMailbox X config w) in
  fetched_bodies t <> [] \/ http_requests t <> [] \/
  mutator_commands t <> [] \/ (exists r, In (EvLogout r) t) ->
  exists n msgs,
    n <> 0%N /\
    In (EvDialTLS addr (Ok tt)) t /\
    In (EvLogin (IMAPUser config) (IMAPPassword config) (Ok tt)) t /\
    In (EvSelect "INBOX" (Ok {| NumMessages := n |})) t /\
    In (EvFetch (SeqSetRange 1 n) listFetchOptions (Ok msgs)) t.
Proof.
  intros addr t.
  destruct (processMailbox_traces config w)
    as [(err & H) | [(err & H) | [(err & H) | [H | [(n & err & Hn & H) |
        (n & msgs & w' & tail & Hn & H & Htail)]]]]];
    fold addr in H; fold t in H; rewrite H; clear H;
    try (intros [Hd | [Hd | [Hd | (r & Hd)]]];
         [ exfalso; apply Hd; reflexivity
         | exfalso; apply Hd; reflexivity
         | exfalso; apply Hd; reflexivity
         | exfalso; simpl in Hd; in_prefix Hd; exact Hd ]).
  intros _. exists n, msgs. split; [exact Hn|].
  simpl. repeat split; auto 10.
Qed.

(** With an empty inbox the cycle stops after the selection: it lists
    nothing, fetches nothing, sends no logout, and closes the connection. *)
Theorem processMailbox_empty_inbox config w :
  let addr := (IMAPServer config ++ ":" ++ IMAPPort config)%string in
  let t := events (processMailbox X config w) in
  In (EvSelect "INBOX" (Ok {| NumMessages := 0 |})) t ->
  t = [EvLog "Connecting to IMAP server..."; EvDialTLS addr (Ok tt);
       EvLogin (IMAPUser config) (IMAPPassword config) (Ok tt);
       EvLog "Logged in successfully";
       EvSelect "INBOX" (Ok {| NumMessages := 0 |});
       EvLog "No messages in INBOX"; EvClose].
Proof.
  intros addr t.
  destruct (processMailbox_traces config w)
    as [(err & H) | [(err & H) | [(err & H) | [H | [(n & err & Hn & H) |
        (n & msgs & w' & tail & Hn & H & Htail)]]]]];
    fold addr in H; fold t in H; rewrite H; clear H;
    try (intros Hin; exfalso; simpl in Hin; in_prefix Hin; exact Hin).
  - reflexivity.
  - intros Hin; exfalso; simpl in Hin.
    repeat (destruct Hin as [Hin | Hin];
            [try discriminate Hin; try (injection Hin as ->; apply Hn; reflexivity)|]).
    exact Hin.
  - intros Hin; exfalso.
    destruct (processMessages_kinds config msgs w') as (Hk & _).
    apply in_app_or in Hin as [Hin | Hin]; [simpl in Hin; in_prefix Hin; exact Hin|].
    apply in_app_or in Hin as [Hin | Hin].
    + simpl in Hin.
      repeat (destruct Hin as [Hin | Hin];
              [try discriminate Hin;
               try (injection Hin as ->; apply Hn; reflexivity)|]).
      exact Hin.
    + apply in_app_or in Hin as [Hin | Hin];
        [exact (message_event_in _ _ Hk Hin)|].
      destruct Htail as [-> | (err & ->)]; simpl in Hin; in_prefix Hin; exact Hin.
Qed.

(** Whatever a cycle asks of the mailbox concerns a listed message and the
    folder [done]: a body is fetched, a message is copied or flagged only
    for an identifier of the listing; a copy goes to [done], a store adds
    [\Deleted], and only [done] is looked up or created. *)
Theorem processMailbox_touches_only_listed config w :
  let t := events (processMailbox X config w) in
  Forall (touches_only (listed_uids t)) t.
Proof.
  intros t.
  destruct (processMailbox_traces config w)
    as [(err & H) | [(err & H) | [(err & H) | [H | [(n & err & Hn & H) |
        (n & msgs & w' & tail & Hn & H & Htail)]]]]];
    fold t in H; rewrite H; clear H;
    try solve [simpl; repeat constructor].
  destruct (processMessages_kinds config msgs w') as (_ & Ht).
  destruct (processMessages_observed X config msgs w') as (_ & Hl).
  match goal with
  | |- Forall (touches_only (listed_uids ?x)) _ =>
      assert (Hlisted : listed_uids x = map msg_UID msgs)
  end.
  { rewrite !listed_uids_app, Hl.
    destruct Htail as [-> | (err & ->)]; simpl; rewrite !app_nil_r; reflexivity. }
  rewrite Hlisted.
  repeat (apply Forall_app; split); try solve [repeat constructor];
    [exact Ht|].
  destruct Htail as [-> | (err & ->)]; repeat constructor.
Qed.


(** When the listing succeeded, the cycle sends the logout after the whole
    batch, whatever the processing of the messages returned, and closes the
    connection after it, also when the logout fails, which is only
    logged. *)
Theorem processMailbox_logs_out_after_batch config w n opts msgs :
  let t := events (processMailbox X config w) in
  In (EvFetch (SeqSetRange 1 n) opts (Ok msgs)) t ->
  exists before r after,
    t = before ++ EvLogout r :: after ++ [EvClose] /\
    fetched_bodies before = map msg_UID msgs /\
    ((r = Ok tt /\ after = []) \/
     (exists err,
         r = Err err /\ after = [EvLog ("Logout failed: " ++ err)%string])).
Proof.
  intros t.
  destruct (processMailbox_traces config w)
    as [(err & H) | [(err & H) | [(err & H) | [H | [(n0 & err & Hn & H) |
        (n0 & msgs0 & w' & tail & Hn & H & Htail)]]]]];
    fold t in H; rewrite H; clear H;
    try (intros Hin; exfalso; simpl in Hin; in_prefix Hin; exact Hin).
  intros Hin.
  destruct (processMessages_kinds config msgs0 w') as (Hk & _).
  destruct (processMessages_observed X config msgs0 w') as (Hf & _).
  assert (Hmsgs : msgs = msgs0).
  { apply in_app_or in Hin as [Hin | Hin];
      [exfalso; simpl in Hin; in_prefix Hin; exact Hin|].
    apply in_app_or in Hin as [Hin | Hin].
    - simpl in Hin.
      destruct Hin as [Hin | [Hin | [Hin | [Hin | []]]]]; try discriminate Hin.
      injection Hin as _ _ Hm. symmetry; exact Hm.
    - exfalso. apply in_app_or in Hin as [Hin | Hin];
        [exact (message_event_in _ _ Hk Hin)|].
      destruct Htail as [-> | (err & ->)]; simpl in Hin; in_prefix Hin;
        exact Hin. }
  subst msgs0.
  match goal with
  | |- exists before r after, (?p1 ++ ?p2 ++ ?evs ++ tail ++ [EvClose]) = _ /\ _ =>
      exists (p1 ++ p2 ++ evs)
  end.
  destruct Htail as [-> | (err & ->)].
  - exists (Ok tt), []. split; [rewrite <- !app_assoc; reflexivity|].
    split; [|left; split; reflexivity].
    rewrite !fetched_bodies_app, Hf. reflexivity.
  - exists (Err err), [EvLog ("Logout failed: " ++ err)%string].
    split; [rewrite <- !app_assoc; reflexivity|].
    split; [|right; exists err; split; reflexivity].
    rewrite !fetched_bodies_app, Hf. reflexivity.
Qed.

(** ** Startup and the polling loop *)

Lemma processMailbox_dialled config w :
  dialled (events (processMailbox X config w)) =
  [(IMAPServer config ++ ":" ++ IMAPPort config)%string].
Proof.
  destruct (processMailbox_traces config w)
    as [(err & H) | [(err & H) | [(err & H) | [H | [(n & err & Hn & H) |
        (n & msgs & w' & tail & Hn & H & Htail)]]]]];
    rewrite H; clear H; try reflexivity.
  destruct (processMessages_kinds config msgs w') as (Hk & _).
  rewrite !dialled_app, (dialled_message_events _ Hk).
  destruct Htail as [-> | (err & ->)]; reflexivity.
Qed.

Lemma onTicks_dialled config ticks w :
  dialled (events (onTicks X config ticks w)) =
  repeat (IMAPServer config ++ ":" ++ IMAPPort config)%string ticks.
Proof.
  revert w. induction ticks as [|n IH]; intros w; [reflexivity|].
  simpl. rewrite events_bind, dialled_app, processMailbox_dialled, IH.
  reflexivity.
Qed.

Lemma loadConfig_interval_default :
  os_Getenv X "POLL_INTERVAL_MINUTES" = EmptyString \/
  (exists err,
      time_ParseDuration X (os_Getenv X "POLL_INTERVAL_MINUTES" ++ "m")
      = Err err) ->
  PollInterval (loadConfig X) = (5 * Minute)%Z.
Proof.
  unfold loadConfig; cbn [PollInterval].
  intros [-> | (err & ->)]; [reflexivity|].
  destruct (negb _); reflexivity.
Qed.

Lemma loadConfig_interval_parsed d :
  os_Getenv X "POLL_INTERVAL_MINUTES" <> EmptyString ->
  time_ParseDuration X (os_Getenv X "POLL_INTERVAL_MINUTES" ++ "m") = Ok d ->
  PollInterval (loadConfig X) = d.
Proof.
  unfold loadConfig; cbn [PollInterval]. intros Hne ->.
  destruct (String.eqb_spec (os_Getenv X "POLL_INTERVAL_MINUTES") EmptyString);
    [contradiction | reflexivity].
Qed.

(** With a complete configuration, [-once] runs one cycle and exits with
    status 0 whatever the ticker would deliver; without it, when the poll
    interval is positive, one cycle is run at once and one more at each
    tick, each dialling the configured server once. *)
Theorem main_runs_one_cycle_per_tick runOnce ticks w :
  let config := loadConfig X in
  let addr := (IMAPServer config ++ ":" ++ IMAPPort config)%string in
  let run := mainWithTicker X runOnce ticks w in
  missingConfig config = false ->
  (runOnce = true ->
   retval run = Ended (Exit 0) /\
   events run =
     EvLog "Running once and exiting..." :: events (processMailbox X config w)) /\
  (runOnce = false -> (0 < PollInterval config)%Z ->
   retval run = Ended WaitingForTick /\
   dialled (events run) = repeat addr (S ticks)).
Proof.
  intros config addr run Hm. unfold run, mainWithTicker. fold config.
  rewrite Hm. split.
  - intros ->. rewrite !retval_bind, !events_bind.
    split; [reflexivity|]. simpl. rewrite app_nil_r. reflexivity.
  - intros -> Hpos. unfold NewTicker.
    destruct (Z.leb_spec (PollInterval config) 0); [lia|].
    rewrite !retval_bind, !events_bind, !dialled_app.
    split; [reflexivity|].
    rewrite processMailbox_dialled, ?world_after_bind, onTicks_dialled.
    unfold logPrintf, ret. rewrite !events_mk. simpl. rewrite app_nil_r.
    reflexivity.
Qed.

(** The poll interval is 5 minutes when [POLL_INTERVAL_MINUTES] is empty or
    does not parse as minutes; a value that parses is taken as it is, also
    when it is zero or negative, and then [main] without [-once] panics in
    [time.NewTicker] after its first log line, before any cycle. *)
Theorem main_panics_on_nonpositive_interval ticks w :
  let val := os_Getenv X "POLL_INTERVAL_MINUTES" in
  (val = EmptyString \/
   (exists err, time_ParseDuration X (val ++ "m") = Err err) ->
   PollInterval (loadConfig X) = 300000000000%Z) /\
  (forall d,
      missingConfig (loadConfig X) = false ->
      val <> EmptyString ->
      time_ParseDuration X (val ++ "m") = Ok d ->
      (d <= 0)%Z ->
      mainWithTicker X false ticks w =
      (Panicked "non-positive interval for NewTicker", w,
       [EvLog ("Starting mail processor. Polling every "
               ++ duration_String X d)%string])).
Proof.
  intros val. split.
  - intros H. rewrite (loadConfig_interval_default H). reflexivity.
  - intros d Hm Hne Hparse Hd.
    unfold mainWithTicker. rewrite Hm.
    rewrite (loadConfig_interval_parsed d Hne Hparse).
    unfold NewTicker. destruct (Z.leb_spec d 0); [reflexivity | lia].
Qed.

End Further.

(** ** The further theorems at work on the scripted server *)

(** The copy is refused: [moveToFolder] names the step in its error. *)
Lemma moveToFolder_first_failure_witness :
  let X := Demo.collaborators Demo.script_copy_refused in
  retval (moveToFolder X 7%N "done" (Demo.mailbox [Demo.message 7%N "M3"])) =
  Err "copy failed: NO [CANNOT] copy refused".
Proof.
  intros X.
  apply (proj2 (moveToFolder_first_failure X
                  (Demo.mailbox [Demo.message 7%N "M3"]) 7%N "done")
               (EvCopy (UIDSetNum 7%N) "done" (Err "NO [CANNOT] copy refused"))
               "NO [CANNOT] copy refused"%string).
  - vm_compute. right; right; right; left. reflexivity.
  - reflexivity.
Defined.

Lemma moveToFolder_deletes_only_after_copy_witness :
  In (EvCopy (UIDSetNum 7%N) "done" (Ok tt))
     [EvList "" "done" (Ok []); EvLog "Creating folder 'done'";
      EvCreate "done" (Ok tt); EvCopy (UIDSetNum 7%N) "done" (Ok tt)].
Proof.
  apply (moveToFolder_deletes_only_after_copy
           (Demo.collaborators Demo.script)
           (Demo.mailbox [Demo.message 7%N "M3"]) 7%N "done"
           [EvList "" "done" (Ok []); EvLog "Creating folder 'done'";
            EvCreate "done" (Ok tt); EvCopy (UIDSetNum 7%N) "done" (Ok tt)]
           (EvStore (UIDSetNum 7%N) addDeleted (Ok tt))
           [EvExpunge (Ok tt)]).
  reflexivity.
Defined.

(** Message 7: [AGB_terms.pdf] is skipped, [receipt.pdf] is sent. *)
Lemma processMessage_uploads_witness :
  let X := Demo.collaborators Demo.script in
  http_requests
    (events (processMessage X 7%N Demo.config
                            (Demo.mailbox [Demo.message 7%N "M3"]))) =
  [uploadRequest X "receipt.pdf" "%PDF-3" Demo.config].
Proof.
  intros X.
  rewrite (processMessage_uploads X (Demo.mailbox [Demo.message 7%N "M3"])
             7%N Demo.config
             [Demo.file "AGB_terms.pdf" "%PDF-2";
              Demo.file "receipt.pdf" "%PDF-3"]).
  - reflexivity.
  - apply (message_at_demo Demo.script) with (body := "M3"%string);
      reflexivity.
Defined.

(** Message 3: [scan.pdf] is uploaded, then a part cannot be read; the
    message stays where it is. *)
Lemma processMessage_part_error_witness :
  let X := Demo.collaborators Demo.script in
  let w := Demo.mailbox [Demo.message 3%N "M4"] in
  let run := processMessage X 3%N Demo.config w in
  retval run = Err "failed to read part: unexpected EOF" /\
  mutator_commands (events run) = [] /\
  uploaded_filenames (events run) = ["scan.pdf"%string] /\
  Demo.inbox (world_after run) = [Demo.message 3%N "M4"].
Proof.
  intros X w run.
  destruct (processMessage_part_error X w 3%N Demo.config
              [ {| part_Header := AttachmentHeader "scan.pdf";
                   part_Body := {| ReadAll_data := "%PDF-4";
                                   ReadAll_err := None |} |} ]
              "unexpected EOF"%string [])
    as (Hret & Hcmds & _).
  - apply (message_at_demo Demo.script) with (body := "M4"%string);
      reflexivity.
  - split; [exact Hret|]. split; [exact Hcmds|]. split; reflexivity.
Defined.

(** No message has the identifier 99; the body [M9] does not parse. *)
Lemma processMessage_fetch_errors_witness :
  let X := Demo.collaborators Demo.script in
  retval (processMessage X 99%N Demo.config
                         (Demo.mailbox [Demo.message 9%N "M9"])) =
    Err "message not found" /\
  retval (processMessage X 9%N Demo.config
                         (Demo.mailbox [Demo.message 9%N "M9"])) =
    Err "failed to create mail reader: malformed MIME header".
Proof.
  intros X. split.
  - apply (proj1 (proj2 (processMessage_fetch_errors X
             (Demo.mailbox [Demo.message 9%N "M9"]) 99%N Demo.config))).
    reflexivity.
  - apply (proj2 (proj2 (proj2 (processMessage_fetch_errors X
             (Demo.mailbox [Demo.message 9%N "M9"]) 9%N Demo.config)))
             {| msg_UID := 9%N; msg_BodySection := ["M9"%string] |} []
             "M9"%string [] "malformed MIME header"%string);
      reflexivity.
Defined.

Lemma processMailbox_needs_session_witness :
  let X := Demo.collaborators Demo.script in
  let t := events (processMailbox X Demo.config
                                  (Demo.mailbox [Demo.message 1%N "M1"])) in
  exists n msgs,
    n <> 0%N /\
    In (EvDialTLS "mail.example.org:993" (Ok tt)) t /\
    In (EvLogin "books" "secret" (Ok tt)) t /\
    In (EvSelect "INBOX" (Ok {| NumMessages := n |})) t /\
    In (EvFetch (SeqSetRange 1 n) listFetchOptions (Ok msgs)) t.
Proof.
  intros X t.
  apply (processMailbox_needs_session X Demo.config
           (Demo.mailbox [Demo.message 1%N "M1"])).
  left. vm_compute. discriminate.
Defined.

Lemma processMailbox_empty_inbox_witness :
  let X := Demo.collaborators Demo.script in
  let t := events (processMailbox X Demo.config (Demo.mailbox [])) in
  fetched_bodies t = [] /\ List.length t = 7%nat.
Proof.
  intros X t. unfold t.
  rewrite (processMailbox_empty_inbox X Demo.config (Demo.mailbox [])).
  - split; reflexivity.
  - vm_compute. right; right; right; right; left. reflexivity.
Defined.

(** Two ticks: three cycles. *)
Lemma main_runs_one_cycle_per_tick_witness :
  let X := Demo.collaborators Demo.script in
  dialled (events (mainWithTicker X false 2 (Demo.mailbox []))) =
  ["mail.example.org:993"; "mail.example.org:993";
   "mail.example.org:993"]%string.
Proof.
  intros X.
  apply (proj2 (main_runs_one_cycle_per_tick X false 2 (Demo.mailbox [])
                  eq_refl) eq_refl).
  vm_compute. reflexivity.
Defined.

(** A poll interval of [0]. *)
Lemma main_panics_on_nonpositive_interval_witness :
  let X := with_poll_interval (Demo.collaborators Demo.script) "0" (Ok 0%Z) in
  retval (mainWithTicker X false 5 (Demo.mailbox [Demo.message 1%N "M1"])) =
    Panicked "non-positive interval for NewTicker" /\
  dialled (events (mainWithTicker X false 5
                     (Demo.mailbox [Demo.message 1%N "M1"]))) = [].
Proof.
  intros X.
  rewrite (proj2 (main_panics_on_nonpositive_interval X 5
                    (Demo.mailbox [Demo.message 1%N "M1"]))
                 0%Z eq_refl).
  - split; reflexivity.
  - discriminate.
  - reflexivity.
  - lia.
Defined.

(** Message 9 fails; the logout follows the batch all the same. *)
Lemma processMailbox_logs_out_after_batch_witness :
  let X := Demo.collaborators Demo.script in
  let t := events (processMailbox X Demo.config
                     (Demo.mailbox [Demo.message 9%N "M9";
                                    Demo.message 2%N "M2"])) in
  exists before r after,
    t = before ++ EvLogout r :: after ++ [EvClose] /\
    fetched_bodies before = [9; 2]%N /\
    ((r = Ok tt /\ after = []) \/
     (exists err,
         r = Err err /\ after = [EvLog ("Logout failed: " ++ err)%string])).
Proof.
  intros X t.
  apply (processMailbox_logs_out_after_batch X Demo.config
           (Demo.mailbox [Demo.message 9%N "M9"; Demo.message 2%N "M2"])
           2%N listFetchOptions
           [ {| msg_UID := 9%N; msg_BodySection := [] |};
             {| msg_UID := 2%N; msg_BodySection := [] |} ]).
  vm_compute. do 6 right. left. reflexivity.
Defined.
